(** * crypto-table: the coin table component of [src/App.tsx]

    A shallow embedding of the React component [App]: its state, its event
    handlers, its two effects, the column callbacks ([onFilter], the sparkline
    [stroke]) and the table's [dataSource], followed by the properties of the
    specification that were checked against them. *)

From Stdlib Require Import List String Ascii ZArith NArith Bool Lia.
From Stdlib Require Import Floats.SpecFloat.
From Stdlib Require Import DecimalString.
Import ListNotations.

Local Open Scope string_scope.
Local Open Scope list_scope.

(** ** The JavaScript built-ins the component calls *)

Module JS.

(** A JS [number] is an IEEE 754 binary64 value. *)
Definition number : Type := spec_float.

Definition prec : Z := 53.
Definition emax : Z := 1024.

Definition NaN : number := S754_nan.

(** The double nearest to an integer. *)
Definition of_Z (z : Z) : number := binary_normalize prec emax z 0 false.

(** [Number::lessThan]: [None] is the specification's [undefined], the
    answer whenever one operand is NaN. *)
Definition lessThan (x y : number) : option bool :=
  match SFcompare x y with
  | None => None
  | Some Lt => Some true
  | Some _ => Some false
  end.

(** [ToNumber] on a value that is a number or [undefined]. *)
Definition ToNumber (v : option number) : number :=
  match v with
  | Some x => x
  | None => NaN
  end.

(** The relational operators, as ECMAScript defines them from
    [IsLessThan]: [a > b] is [b < a]; [a >= b] is "not [a < b]", and
    [a <= b] is "not [b < a]", where an [undefined] comparison gives
    [false] in all three. *)
Definition gt (a b : number) : bool :=
  match lessThan b a with
  | Some r => r
  | None => false
  end.

Definition ge (a b : number) : bool :=
  match lessThan a b with
  | Some r => negb r
  | None => false
  end.

Definition le (a b : number) : bool :=
  match lessThan b a with
  | Some r => negb r
  | None => false
  end.

(** Strings are sequences of code units; [string] holds them as bytes
    (UTF-8), which leaves the ASCII range unchanged. *)

(** [ToBoolean] of a string, and of a string that may be [undefined]. *)
Definition truthy (s : string) : bool :=
  match s with
  | EmptyString => false
  | String _ _ => true
  end.

Definition truthy_opt (v : option string) : bool :=
  match v with
  | Some s => truthy s
  | None => false
  end.

Definition is_upper (c : ascii) : bool :=
  ((65 <=? N_of_ascii c) && (N_of_ascii c <=? 90))%N.

Definition is_lower (c : ascii) : bool :=
  ((97 <=? N_of_ascii c) && (N_of_ascii c <=? 122))%N.

Definition lower_ascii (c : ascii) : ascii :=
  if is_upper c then ascii_of_N (N_of_ascii c + 32) else c.

(** [String.prototype.toLowerCase] on strings of ASCII code units, where the
    method maps A-Z to a-z and changes nothing else.  On other strings the
    method applies the Unicode case mappings, which are not embedded: this
    function keeps every non-ASCII code unit, so what is proved of how letters
    fold is stated for ASCII strings ([is_ascii]) or up to the case of ASCII
    letters ([same_text]). *)
Fixpoint toLowerCase (s : string) : string :=
  match s with
  | EmptyString => EmptyString
  | String c s' => String (lower_ascii c) (toLowerCase s')
  end.

(** [String.prototype.includes]: the search string occurs at some index. *)
Fixpoint includes (s q : string) : bool :=
  prefix q s ||
  match s with
  | EmptyString => false
  | String _ s' => includes s' q
  end.

(** [String.prototype.split] with a non-empty separator: [skip] counts the
    separator's code units still to drop after a match, [cur] is the piece
    being collected. *)
Fixpoint split_go (sep s : string) (skip : nat) (cur : string) : list string :=
  match s with
  | EmptyString => [cur]
  | String c s' =>
      match skip with
      | S k => split_go sep s' k cur
      | O =>
          if prefix sep s
          then cur :: split_go sep s' (String.length sep - 1) EmptyString
          else split_go sep s' 0 (cur ++ String c EmptyString)
      end
  end.

(** With the empty separator [split] gives the code units one by one. *)
Fixpoint chars (s : string) : list string :=
  match s with
  | EmptyString => []
  | String c s' => String c EmptyString :: chars s'
  end.

Definition split (s sep : string) : list string :=
  match sep with
  | EmptyString => chars s
  | String _ _ => split_go sep s 0 EmptyString
  end.

(** Array destructuring and indexing: a missing element is [undefined]. *)
Definition at_index {A : Type} (l : list A) (i : Z) : option A :=
  if (i <? 0)%Z then None else nth_error l (Z.to_nat i).

Definition digit_of (c : ascii) : option Z :=
  let n := N_of_ascii c in
  if ((48 <=? n) && (n <=? 57))%N then Some (Z.of_N n - 48)%Z else None.

Fixpoint digits_value (s : string) (acc : Z) : option Z :=
  match s with
  | EmptyString => Some acc
  | String c s' =>
      match digit_of c with
      | Some d => digits_value s' (10 * acc + d)
      | None => None
      end
  end.

(** [Number(s)] ([StringToNumber]) on the strings made of decimal digits
    only, the empty string being [+0].  The other numeric literals (sign,
    fraction, exponent, white space, [Infinity], radix prefixes) are not
    embedded: on them this function answers NaN, which is ECMAScript's
    answer only for the strings that are no numeric literal at all.  The
    bucket bounds of the [filters] table are all digit strings. *)
Definition StringToNumber (s : string) : number :=
  match digits_value s 0 with
  | Some z => of_Z z
  | None => NaN
  end.

(** [Number(v)] where [v] is a string or [undefined]. *)
Definition Number_with (str_to_num : string -> number) (v : option string) : number :=
  match v with
  | Some s => str_to_num s
  | None => NaN
  end.

Definition Number : option string -> number := Number_with StringToNumber.

(** [ToString] of an integral number, as a template literal prints it. *)
Definition ToString (z : Z) : string := NilZero.string_of_int (Z.to_int z).

End JS.


(** ** Data model *)

(** [sparkline_in_7d: { price: Array<number> }] *)
Record Sparkline : Type := mkSparkline {
  price : list JS.number
}.

Record CoinType : Type := mkCoin {
  name : string;
  image : string;
  current_price : JS.number;
  circulating_supply : JS.number;
  sparkline_in_7d : Sparkline
}.

(** A menu item: [{ key, label }]. *)
Record MenuItem : Type := mkItem {
  item_key : string;
  item_label : string
}.

Definition currencyItems : list MenuItem :=
  [ mkItem "USD $" "USD"; mkItem "EUR €" "EUR" ].

Definition sortOrderItems : list MenuItem :=
  [ mkItem "market_cap_desc" "Market Cap Decending";
    mkItem "market_cap_asc" "Market Cap Ascending" ].

(** The currency state.  Both fields come out of an array destructuring in
    [handleCurrencyChange], so each may be [undefined] ([None]). *)
Module Currency.
Record t : Type := mk {
  label : option string;
  symbol : option string
}.
End Currency.

Module SortOrder.
Record t : Type := mk {
  label : string;
  key : string
}.
End SortOrder.

(** The pagination state; its numbers are the integers of the table's pager. *)
Module Pagination.
Record t : Type := mk {
  totalCount : Z;
  pageSize : Z;
  current : Z
}.
End Pagination.

(** The seven [useState] cells of [App]. *)
Record State : Type := mkState {
  currency : Currency.t;
  sortOrder : SortOrder.t;
  pagination : Pagination.t;
  data : list CoinType;
  filterQuery : string;
  filteredData : list CoinType;
  isLoading : bool
}.

Definition initialState : State :=
  {| currency := Currency.mk (Some "USD") (Some "$");
     sortOrder := SortOrder.mk "Market Cap Decending" "market_cap_desc";
     pagination := Pagination.mk 10000 10 1;
     data := [];
     filterQuery := "";
     filteredData := [];
     isLoading := false |}.

(** ** The price column *)

(** A filter entry: [{ text, value }]. *)
Record FilterItem : Type := mkFilter {
  text : string;
  value : string
}.

Definition filters : list FilterItem :=
  [ mkFilter "0 - 100" "0 - 100";
    mkFilter "100 - 200" "100 - 200";
    mkFilter "200 - 300" "200 - 300";
    mkFilter "300 - 400" "300 - 400";
    mkFilter "400 - 500" "400 - 500";
    mkFilter "500 - 600" "500 - 600";
    mkFilter "600 - 700" "600 - 700";
    mkFilter "> 700" "700" ].

(** [onFilter], over any embedding of [Number] on strings. *)
Definition onFilter_with (str_to_num : string -> JS.number)
    (value : string) (record : CoinType) : bool :=
  let parts := JS.split value " - " in
  let min := JS.at_index parts 0 in
  let max := JS.at_index parts 1 in
  if negb (JS.truthy_opt max)
  then JS.ge (current_price record) (JS.Number_with str_to_num min)
  else JS.ge (current_price record) (JS.Number_with str_to_num min)
       && JS.le (current_price record) (JS.Number_with str_to_num max).

Definition onFilter : string -> CoinType -> bool :=
  onFilter_with JS.StringToNumber.

(** ** The 7-day trend column *)

Definition red : string := "#d61616".
Definition green : string := "#19db39".

(** The two elements the [stroke] expression reads. *)
Definition first_price (record : CoinType) : option JS.number :=
  JS.at_index (price (sparkline_in_7d record)) 0.

Definition last_price (record : CoinType) : option JS.number :=
  JS.at_index (price (sparkline_in_7d record))
    (Z.of_nat (List.length (price (sparkline_in_7d record))) - 1).

Definition stroke (record : CoinType) : string :=
  if JS.gt (JS.ToNumber (first_price record)) (JS.ToNumber (last_price record))
  then red
  else green.

(** ** Setter calls and outside effects *)

(** What the component's code can do: call one of its state setters, issue
    the HTTP request, or raise the error toast. *)
Inductive Call : Type :=
| SetCurrency (c : Currency.t)
| SetSortOrder (s : SortOrder.t)
| SetPagination (p : Pagination.t)
| SetData (d : list CoinType)
| SetFilterQuery (q : string)
| SetFilteredData (d : list CoinType)
| SetIsLoading (b : bool)
| AxiosGet (url : string)
| ToastError (message : string).

(** The state after one call; the request and the toast leave it as it is. *)
Definition apply (st : State) (c : Call) : State :=
  match c with
  | SetCurrency x =>
      mkState x (sortOrder st) (pagination st) (data st) (filterQuery st)
        (filteredData st) (isLoading st)
  | SetSortOrder x =>
      mkState (currency st) x (pagination st) (data st) (filterQuery st)
        (filteredData st) (isLoading st)
  | SetPagination x =>
      mkState (currency st) (sortOrder st) x (data st) (filterQuery st)
        (filteredData st) (isLoading st)
  | SetData x =>
      mkState (currency st) (sortOrder st) (pagination st) x (filterQuery st)
        (filteredData st) (isLoading st)
  | SetFilterQuery x =>
      mkState (currency st) (sortOrder st) (pagination st) (data st) x
        (filteredData st) (isLoading st)
  | SetFilteredData x =>
      mkState (currency st) (sortOrder st) (pagination st) (data st)
        (filterQuery st) x (isLoading st)
  | SetIsLoading x =>
      mkState (currency st) (sortOrder st) (pagination st) (data st)
        (filterQuery st) (filteredData st) x
  | AxiosGet _ => st
  | ToastError _ => st
  end.

Definition commit (st : State) (calls : list Call) : State :=
  fold_left apply calls st.

(** The state cell a call writes, if any. *)
Inductive Cell : Type :=
| CurrencyCell
| SortOrderCell
| PaginationCell
| DataCell
| FilterQueryCell
| FilteredDataCell
| IsLoadingCell.

Definition writes (c : Call) : option Cell :=
  match c with
  | SetCurrency _ => Some CurrencyCell
  | SetSortOrder _ => Some SortOrderCell
  | SetPagination _ => Some PaginationCell
  | SetData _ => Some DataCell
  | SetFilterQuery _ => Some FilterQueryCell
  | SetFilteredData _ => Some FilteredDataCell
  | SetIsLoading _ => Some IsLoadingCell
  | AxiosGet _ => None
  | ToastError _ => None
  end.

(** ** Programs: calls in sequence, exceptions, one kind of [await] *)

(** [Await url resolved rejected] is [await axios.get(url)]: the function is
    suspended; it goes on with [resolved d] when the promise resolves with
    response data [d], and with [rejected] when it rejects. *)
Inductive Prog (A : Type) : Type :=
| Ret (a : A)
| Throw
| Do (c : Call) (k : Prog A)
| Await (url : string) (resolved : list CoinType -> Prog A) (rejected : Prog A).

Arguments Ret {A} a.
Arguments Throw {A}.
Arguments Do {A} c k.
Arguments Await {A} url resolved rejected.

Fixpoint bind {A B : Type} (p : Prog A) (f : A -> Prog B) : Prog B :=
  match p with
  | Ret a => f a
  | Throw => Throw
  | Do c k => Do c (bind k f)
  | Await url resolved rejected =>
      Await url (fun d => bind (resolved d) f) (bind rejected f)
  end.

(** [try { p } catch (e) { handler }] *)
Fixpoint try_catch {A : Type} (p handler : Prog A) : Prog A :=
  match p with
  | Ret a => Ret a
  | Throw => handler
  | Do c k => Do c (try_catch k handler)
  | Await url resolved rejected =>
      Await url (fun d => try_catch (resolved d) handler)
        (try_catch rejected handler)
  end.

Definition call (c : Call) : Prog unit := Do c (Ret tt).

(** A rejected promise is thrown at the [await]. *)
Definition axios_get (url : string) : Prog (list CoinType) :=
  Await url (fun d => Ret d) Throw.

Notation "x <- p ;; q" := (bind p (fun x => q))
  (at level 61, p at next level, right associativity).
Notation "p ;; q" := (bind p (fun _ => q))
  (at level 61, right associativity).

(** How a program ends its synchronous run. *)
Inductive Status (A : Type) : Type :=
| Finished (r : option A)
| Suspended (url : string) (resolved : list CoinType -> Prog A) (rejected : Prog A).

Arguments Finished {A} r.
Arguments Suspended {A} url resolved rejected.

(** The calls a program makes until it returns, throws or suspends; the
    request is issued where the program suspends. *)
Fixpoint sync {A : Type} (p : Prog A) : list Call * Status A :=
  match p with
  | Ret a => ([], Finished (Some a))
  | Throw => ([], Finished None)
  | Do c k => let (calls, s) := sync k in (c :: calls, s)
  | Await url resolved rejected => ([AxiosGet url], Suspended url resolved rejected)
  end.

Definition calls_of {A : Type} (p : Prog A) : list Call := fst (sync p).

(** How a request settles. *)
Inductive Outcome : Type :=
| Resolved (d : list CoinType)
| Rejected.

(** The rest of a suspended program, once its request has settled. *)
Definition resume {A : Type} (p : Prog A) (o : Outcome) : Prog A :=
  match snd (sync p) with
  | Suspended _ resolved rejected =>
      match o with
      | Resolved d => resolved d
      | Rejected => rejected
      end
  | Finished (Some a) => Ret a
  | Finished None => Throw
  end.

(** ** The two effects *)

Definition failure_message : string := "Failed to fetch data, try again later".

(** The template literal of the request, for a label that is a string. *)
Definition request_template (label : string) (st : State) : string :=
  ("https://api.coingecko.com/api/v3/coins/markets?vs_currency="
   ++ JS.toLowerCase label
   ++ "&order=" ++ JS.toLowerCase (SortOrder.key (sortOrder st))
   ++ "&per_page=" ++ JS.ToString (Pagination.pageSize (pagination st))
   ++ "&page=" ++ JS.ToString (Pagination.current (pagination st))
   ++ "&sparkline=true")%string.

(** [currency.label.toLowerCase()] throws a TypeError when the label is
    [undefined]. *)
Definition request_url (st : State) : Prog string :=
  match Currency.label (currency st) with
  | None => Throw
  | Some l => Ret (request_template l st)
  end.

(** The body of the async function of the first [useEffect]. *)
Definition fetchEffect (st : State) : Prog unit :=
  call (SetIsLoading true) ;;
  try_catch
    (url <- request_url st ;;
     d <- axios_get url ;;
     call (SetData d))
    (call (ToastError failure_message)) ;;
  call (SetIsLoading false).

(** The callback of [data.filter] in the second [useEffect]. *)
Definition matches (query : string) (coin : CoinType) : bool :=
  JS.includes (JS.toLowerCase (name coin)) (JS.toLowerCase query).

Definition filterEffect (st : State) : Prog unit :=
  if JS.truthy (filterQuery st)
  then call (SetFilteredData (filter (matches (filterQuery st)) (data st)))
  else Ret tt.

(** ** The handlers *)

Definition with_current (p : Pagination.t) (c : Z) : Pagination.t :=
  Pagination.mk (Pagination.totalCount p) (Pagination.pageSize p) c.

Definition handleCurrencyChange (st : State) (e_key : string) : Prog unit :=
  let parts := JS.split e_key " " in
  let label := JS.at_index parts 0 in
  let symbol := JS.at_index parts 1 in
  call (SetPagination (with_current (pagination st) 1)) ;;
  call (SetCurrency (Currency.mk label symbol)).

Definition handleSortOrder (st : State) (e_key : string) : Prog unit :=
  if e_key =? "market_cap_desc" then
    call (SetPagination (with_current (pagination st) 1)) ;;
    call (SetSortOrder (SortOrder.mk "Market Cap Decending" "market_cap_desc"))
  else if e_key =? "market_cap_asc" then
    call (SetPagination (with_current (pagination st) 1)) ;;
    call (SetSortOrder (SortOrder.mk "Market Cap Ascending" "market_cap_asc"))
  else Ret tt.

(** The pager's [onChange]: [{ ...pagination, current, pageSize: size }]. *)
Definition onPageChange (st : State) (current size : Z) : Prog unit :=
  call (SetPagination
          (Pagination.mk (Pagination.totalCount (pagination st)) size current)).

(** The search box's [onChange]. *)
Definition onSearchChange (value : string) : Prog unit :=
  call (SetFilterQuery value).

(** ** What the table shows *)

Definition dataSource (st : State) : list CoinType :=
  if JS.truthy (filterQuery st) then filteredData st else data st.

(** [selectedKeys] of the currency menu: string concatenation prints
    [undefined] by its name. *)
Definition show_opt (v : option string) : string :=
  match v with
  | Some s => s
  | None => "undefined"
  end.

Definition selectedCurrencyKey (st : State) : string :=
  (show_opt (Currency.label (currency st)) ++ " "
   ++ show_opt (Currency.symbol (currency st)))%string.

(** ** The component as a transition system *)

(** The rendered state together with the suspended runs of the fetch
    function, each kept as the state its closure captured. *)
Record World : Type := mkWorld {
  ui : State;
  inflight : list State
}.

Inductive Event : Type :=
| CurrencyClick (key : string)
| SortOrderClick (key : string)
| PageChange (current size : Z)
| SearchInput (value : string)
| FetchSettled (i : nat) (o : Outcome).

Fixpoint remove_nth {A : Type} (i : nat) (l : list A) : list A :=
  match l, i with
  | [], _ => []
  | _ :: l', O => l'
  | x :: l', S i' => x :: remove_nth i' l'
  end.

(** The code an event runs. *)
Definition handler (w : World) (ev : Event) : Prog unit :=
  match ev with
  | CurrencyClick k => handleCurrencyChange (ui w) k
  | SortOrderClick k => handleSortOrder (ui w) k
  | PageChange c s => onPageChange (ui w) c s
  | SearchInput v => onSearchChange v
  | FetchSettled i o =>
      match nth_error (inflight w) i with
      | Some captured => resume (fetchEffect captured) o
      | None => Ret tt
      end
  end.

Definition still_inflight (w : World) (ev : Event) : list State :=
  match ev with
  | FetchSettled i _ => remove_nth i (inflight w)
  | _ => inflight w
  end.

(** Dependency arrays.  [currency], [sortOrder] and [pagination] are objects,
    compared by reference: every setter call installs a new one.  [data] is
    replaced by a new array on every [setData]; [filterQuery] is a string,
    compared by its contents. *)
Definition touches_fetch_deps (c : Call) : bool :=
  match c with
  | SetCurrency _ | SetSortOrder _ | SetPagination _ => true
  | _ => false
  end.

Definition touches_data (c : Call) : bool :=
  match c with
  | SetData _ => true
  | _ => false
  end.

Definition fetch_deps_changed (calls : list Call) : bool :=
  existsb touches_fetch_deps calls.

Definition filter_deps_changed (old new : State) (calls : list Call) : bool :=
  negb (filterQuery old =? filterQuery new) || existsb touches_data calls.

(** Running an effect of the render of [st]: its calls, and its closure if
    it is left suspended. *)
Definition launch (st : State) (p : Prog unit) : list Call * list State :=
  match sync p with
  | (calls, Suspended _ _ _) => (calls, [st])
  | (calls, Finished _) => (calls, [])
  end.

Definition effects (st : State) (run_fetch run_filter : bool)
  : list Call * list State :=
  let f := if run_fetch then launch st (fetchEffect st) else ([], []) in
  let g := if run_filter then launch st (filterEffect st) else ([], []) in
  (fst f ++ fst g, snd f ++ snd g).

(** One event: the handler's calls are committed and the component renders;
    the effects whose dependencies changed run on the rendered state, and
    their calls are committed in turn.  The second component of [step] is the
    trace of all calls made. *)
Definition rendered (w : World) (ev : Event) : State :=
  commit (ui w) (calls_of (handler w ev)).

Definition effects_of (w : World) (ev : Event) : list Call * list State :=
  effects (rendered w ev)
    (fetch_deps_changed (calls_of (handler w ev)))
    (filter_deps_changed (ui w) (rendered w ev) (calls_of (handler w ev))).

Definition step (w : World) (ev : Event) : World * list Call :=
  (mkWorld (commit (rendered w ev) (fst (effects_of w ev)))
           (still_inflight w ev ++ snd (effects_of w ev)),
   calls_of (handler w ev) ++ fst (effects_of w ev)).

(** The first render: both effects run. *)
Definition mount : World * list Call :=
  let e := effects initialState true true in
  (mkWorld (commit initialState (fst e)) (snd e), fst e).

Fixpoint run (w : World) (evs : list Event) : World :=
  match evs with
  | [] => w
  | ev :: evs' => run (fst (step w ev)) evs'
  end.

Definition reachable (w : World) : Prop :=
  exists evs, w = run (fst mount) evs.

(** The requests and the toasts of a trace. *)
Definition requests (calls : list Call) : list string :=
  flat_map (fun c => match c with AxiosGet u => [u] | _ => [] end) calls.

Definition toasts (calls : list Call) : list string :=
  flat_map (fun c => match c with ToastError m => [m] | _ => [] end) calls.

Definition clears_loading (c : Call) : bool :=
  match c with
  | SetIsLoading false => true
  | _ => false
  end.


(** ** The words of the specification *)

(** "[a] ≤ [b]" on numbers is the IEEE 754 comparison; it is false when either
    side is NaN. *)
Definition num_le (a b : JS.number) : Prop := SFleb a b = true.

Definition is_nan (x : JS.number) : bool :=
  match x with
  | S754_nan => true
  | _ => false
  end.

(** Two code units that are equal up to the case of an ASCII letter. *)
Definition same_letter (c d : ascii) : Prop :=
  c = d
  \/ (JS.is_upper c = true /\ N_of_ascii d = (N_of_ascii c + 32)%N)
  \/ (JS.is_upper d = true /\ N_of_ascii c = (N_of_ascii d + 32)%N).

Inductive same_text : string -> string -> Prop :=
| same_empty : same_text EmptyString EmptyString
| same_cons c d s t :
    same_letter c d -> same_text s t -> same_text (String c s) (String d t).

(** [s] contains [q] as a case-insensitive substring. *)
Definition contains_ci (s q : string) : Prop :=
  exists pre mid post, s = (pre ++ mid ++ post)%string /\ same_text mid q.

(** A string of ASCII code units only: on these the embedded
    [JS.toLowerCase] is the method the source calls. *)
Fixpoint is_ascii (s : string) : bool :=
  match s with
  | EmptyString => true
  | String c s' => (N_of_ascii c <? 128)%N && is_ascii s'
  end.

(** Every record of a collection has an ASCII name. *)
Definition ascii_names (D : list CoinType) : Prop :=
  Forall (fun c => is_ascii (name c) = true) D.

(** [R] is the subsequence of [D] made of exactly the records that satisfy
    [P], in the order of [D]. *)
Inductive selects {A : Type} (P : A -> Prop) : list A -> list A -> Prop :=
| selects_nil : selects P [] []
| selects_keep x D R : P x -> selects P D R -> selects P (x :: D) (x :: R)
| selects_skip x D R : ~ P x -> selects P D R -> selects P (x :: D) R.

(** The value of the bucket the filter menu shows under a given text. *)
Definition bucket_value (shown : string) : option string :=
  option_map value (find (fun f => text f =? shown) filters).

(** "The last value is ≥ the first value" of a record's trend series. *)
Definition last_ge_first (record : CoinType) : Prop :=
  num_le (JS.ToNumber (first_price record)) (JS.ToNumber (last_price record)).

(** Label and symbol of a currency state agree. *)
Definition consistent (c : Currency.t) : Prop :=
  (Currency.label c = Some "USD" -> Currency.symbol c = Some "$")
  /\ (Currency.label c = Some "EUR" -> Currency.symbol c = Some "€").

(** The whole run of the fetch function from the render of [st], its request
    settling as [o]. *)
Definition fetch_run (st : State) (o : Outcome) : list Call :=
  calls_of (fetchEffect st) ++ calls_of (resume (fetchEffect st) o).

(** While a query is active, the stored filtered set is the filter of the
    current data by the current query. *)
Definition view_in_sync (st : State) : Prop :=
  JS.truthy (filterQuery st) = true ->
  filteredData st = filter (matches (filterQuery st)) (data st).

(** A currency click is a click on an item of the currency menu. *)
Definition currency_from_menu (ev : Event) : Prop :=
  match ev with
  | CurrencyClick k => In k (map item_key currencyItems)
  | _ => True
  end.

(** What the filter stage leaves in the filtered-view cell when it runs on
    the render of [st]. *)
Definition filter_stage_output (st : State) : list CoinType :=
  filteredData (commit st (calls_of (filterEffect st))).

(** The component after its first request has resolved with [D]. *)
Definition loaded (D : list CoinType) : World :=
  fst (step (fst mount) (FetchSettled 0 (Resolved D))).

(** ** Sample data *)

Definition coin_named (n : string) : CoinType :=
  mkCoin n "" (JS.of_Z 0) (JS.of_Z 0) (mkSparkline []).

Definition coin_priced (p : JS.number) : CoinType :=
  mkCoin "" "" p (JS.of_Z 0) (mkSparkline []).

Definition coin_with_series (s : list JS.number) : CoinType :=
  mkCoin "" "" (JS.of_Z 0) (JS.of_Z 0) (mkSparkline s).

Definition sample_coins : list CoinType :=
  [ coin_named "Bitcoin"; coin_named "Ethereum"; coin_named "Bitcoin Cash" ].

(** 350.5 and 299.5, which are doubles. *)
Definition n350_5 : JS.number := binary_normalize JS.prec JS.emax 701 (-1) false.
Definition n299_5 : JS.number := binary_normalize JS.prec JS.emax 599 (-1) false.

(** ** The rest of the component *)

(** The [sorter] of the price column. *)
Definition sorter (a b : CoinType) : JS.number :=
  SFsub JS.prec JS.emax (current_price a) (current_price b).

(** The events whose handler installs a new [currency], [sortOrder] or
    [pagination] object: every currency click, every page change, and a sort
    click on a key of the menu. *)
Definition refetches (ev : Event) : Prop :=
  match ev with
  | CurrencyClick _ => True
  | PageChange _ _ => True
  | SortOrderClick k => In k (map item_key sortOrderItems)
  | _ => False
  end.

Definition resolves (ev : Event) : bool :=
  match ev with
  | FetchSettled _ (Resolved _) => true
  | _ => false
  end.

(** [columns] is a [useMemo] over [[data]]: its render callbacks close over
    the [currency] of the render in which [data] last changed.  This is the
    currency the price column prints with after an event. *)
Definition columns_after (memo : Currency.t) (w : World) (ev : Event)
  : Currency.t :=
  if existsb touches_data (calls_of (handler w ev))
  then currency (rendered w ev)
  else memo.

Fixpoint columns_run (memo : Currency.t) (w : World) (evs : list Event)
  : Currency.t :=
  match evs with
  | [] => memo
  | ev :: evs' => columns_run (columns_after memo w ev) (fst (step w ev)) evs'
  end.

(** What the price cell prints before the price: [{currency.symbol}], where
    JSX prints nothing for [undefined]. *)
Definition price_prefix (memo : Currency.t) : string :=
  match Currency.symbol memo with
  | Some s => s
  | None => ""
  end.

(** The buckets of the filter menu that accept a record, in menu order. *)
Definition accepting (record : CoinType) : list FilterItem :=
  filter (fun f => onFilter (value f) record) filters.

(** The bounds that two neighbouring range buckets share. *)
Definition shared_bounds : list Z := [100; 200; 300; 400; 500; 600; 700]%Z.

(** Which control an event comes from. *)
Definition is_page_change (ev : Event) : bool :=
  match ev with
  | PageChange _ _ => true
  | _ => false
  end.

Definition is_typing (ev : Event) : bool :=
  match ev with
  | SearchInput _ => true
  | _ => false
  end.

Definition is_currency_click (ev : Event) : bool :=
  match ev with
  | CurrencyClick _ => true
  | _ => false
  end.

Definition is_sort_click (ev : Event) : bool :=
  match ev with
  | SortOrderClick _ => true
  | _ => false
  end.

(** ** Numbers *)

Lemma SFcompare_antisym (x y : JS.number) :
  SFcompare y x = option_map CompOpp (SFcompare x y).
Proof.
  destruct x as [sx | sx | | sx mx ex], y as [sy | sy | | sy my ey]; simpl;
    try reflexivity;
    try (destruct sx; reflexivity);
    try (destruct sy; reflexivity);
    try (destruct sx, sy; reflexivity).
  destruct sx, sy; simpl; try reflexivity.
  - rewrite (Z.compare_antisym ex ey).
    destruct (ex ?= ey)%Z; simpl; try reflexivity.
    now rewrite (Pos.compare_cont_antisym mx my Eq).
  - rewrite (Z.compare_antisym ex ey).
    destruct (ex ?= ey)%Z; simpl; try reflexivity.
    now rewrite (Pos.compare_cont_antisym mx my Eq).
Qed.

(** The ECMAScript operators are the IEEE comparisons. *)
Lemma ge_is_SFleb (a b : JS.number) : JS.ge a b = SFleb b a.
Proof.
  unfold JS.ge, JS.lessThan, SFleb. rewrite (SFcompare_antisym a b).
  destruct (SFcompare a b) as [[]|]; reflexivity.
Qed.

Lemma le_is_SFleb (a b : JS.number) : JS.le a b = SFleb a b.
Proof.
  unfold JS.le, JS.lessThan, SFleb. rewrite (SFcompare_antisym a b).
  destruct (SFcompare a b) as [[]|]; reflexivity.
Qed.

Lemma gt_is_SFltb (a b : JS.number) : JS.gt a b = SFltb b a.
Proof.
  unfold JS.gt, JS.lessThan, SFltb. destruct (SFcompare b a) as [[]|]; reflexivity.
Qed.

(** Away from NaN the order is total: "not [a > b]" is "[a] ≤ [b]". *)
Lemma not_gt_is_le (a b : JS.number) :
  is_nan a = false -> is_nan b = false -> JS.gt a b = negb (SFleb a b).
Proof.
  intros Ha Hb. rewrite gt_is_SFltb. unfold SFltb, SFleb.
  rewrite (SFcompare_antisym a b).
  assert (exists c, SFcompare a b = Some c) as [c ->].
  { destruct a, b; try discriminate; simpl; eauto. }
  destruct c; reflexivity.
Qed.

Lemma gt_nan_l (b : JS.number) : JS.gt JS.NaN b = false.
Proof. rewrite gt_is_SFltb. unfold SFltb. now destruct b. Qed.

Lemma gt_nan_r (a : JS.number) : JS.gt a JS.NaN = false.
Proof. rewrite gt_is_SFltb. unfold SFltb. now destruct a. Qed.

Example Number_300 :
  JS.Number (Some "300") = S754_finite false 5277655813324800 (-44)
  /\ valid_binary JS.prec JS.emax (JS.Number (Some "300")) = true
  /\ JS.Number (Some "300") = JS.of_Z 300.
Proof. repeat split; reflexivity. Qed.

Example Number_undefined : JS.Number None = JS.NaN.
Proof. reflexivity. Qed.

(** ** Arrays *)

Lemma at_index_in_bounds {A : Type} (l : list A) (i : Z) :
  JS.at_index l i <> None <-> (0 <= i < Z.of_nat (List.length l))%Z.
Proof.
  unfold JS.at_index. destruct (Z.ltb_spec i 0) as [Hneg | Hpos].
  - split; [congruence | lia].
  - rewrite nth_error_Some. lia.
Qed.

Lemma at_index_nil {A : Type} (i : Z) : JS.at_index (@nil A) i = None.
Proof.
  unfold JS.at_index. destruct (i <? 0)%Z; [reflexivity|].
  now destruct (Z.to_nat i).
Qed.

(** ** The price buckets *)

Section Buckets.

Variable str_to_num : string -> JS.number.

(** The test of [onFilter], read off its two branches. *)
Lemma onFilter_with_spec (v : string) (r : CoinType) :
  let parts := JS.split v " - " in
  let lo := JS.Number_with str_to_num (JS.at_index parts 0) in
  let hi := JS.Number_with str_to_num (JS.at_index parts 1) in
  if JS.truthy_opt (JS.at_index parts 1)
  then onFilter_with str_to_num v r = true
       <-> num_le lo (current_price r) /\ num_le (current_price r) hi
  else onFilter_with str_to_num v r = true
       <-> num_le lo (current_price r).
Proof.
  intros parts lo hi. unfold onFilter_with, num_le.
  fold parts. fold lo. fold hi.
  destruct (JS.truthy_opt (JS.at_index parts 1)); simpl.
  - rewrite andb_true_iff, ge_is_SFleb, le_is_SFleb. tauto.
  - rewrite ge_is_SFleb. tauto.
Qed.

End Buckets.

(** C3: the bucket shown as "300 - 400" accepts a record iff
    300 ≤ current_price ≤ 400, the bucket shown as "> 700" accepts it iff
    current_price ≥ 700; for any bucket value, a bucket with a max accepts iff
    the price is ≥ its minimum and ≤ its maximum, and a bucket with no max
    accepts iff the price is ≥ its minimum. *)
Theorem onFilter_bucket_membership :
  bucket_value "300 - 400" = Some "300 - 400"
  /\ bucket_value "> 700" = Some "700"
  /\ (forall r : CoinType,
        onFilter "300 - 400" r = true
        <-> num_le (JS.of_Z 300) (current_price r)
            /\ num_le (current_price r) (JS.of_Z 400))
  /\ (forall r : CoinType,
        onFilter "700" r = true <-> num_le (JS.of_Z 700) (current_price r))
  /\ (forall (str_to_num : string -> JS.number) (v : string) (r : CoinType),
        let parts := JS.split v " - " in
        let lo := JS.Number_with str_to_num (JS.at_index parts 0) in
        let hi := JS.Number_with str_to_num (JS.at_index parts 1) in
        if JS.truthy_opt (JS.at_index parts 1)
        then onFilter_with str_to_num v r = true
             <-> num_le lo (current_price r) /\ num_le (current_price r) hi
        else onFilter_with str_to_num v r = true
             <-> num_le lo (current_price r)).
Proof.
  split; [reflexivity|]. split; [reflexivity|].
  split; [|split].
  - intro r. exact (onFilter_with_spec JS.StringToNumber "300 - 400" r).
  - intro r. exact (onFilter_with_spec JS.StringToNumber "700" r).
  - exact onFilter_with_spec.
Qed.

(** Both ends of a range bucket are inside it, so 300 is in two buckets. *)
Example onFilter_samples :
  onFilter "300 - 400" (coin_priced (JS.of_Z 300)) = true
  /\ onFilter "200 - 300" (coin_priced (JS.of_Z 300)) = true
  /\ onFilter "300 - 400" (coin_priced (JS.of_Z 400)) = true
  /\ onFilter "300 - 400" (coin_priced n350_5) = true
  /\ onFilter "300 - 400" (coin_priced n299_5) = false
  /\ onFilter "300 - 400" (coin_priced (JS.of_Z 401)) = false
  /\ onFilter "700" (coin_priced (JS.of_Z 700)) = true
  /\ onFilter "700" (coin_priced (JS.of_Z 65000)) = true
  /\ onFilter "700" (coin_priced n350_5) = false
  /\ onFilter "700" (coin_priced JS.NaN) = false
  /\ onFilter "300 - 400" (coin_priced JS.NaN) = false.
Proof. repeat split; reflexivity. Qed.

(** ** The trend colour *)

Lemma red_is_not_green : red <> green.
Proof. discriminate. Qed.

(** What the [stroke] expression tests. *)
Lemma stroke_green (r : CoinType) :
  stroke r = green
  <-> JS.gt (JS.ToNumber (first_price r)) (JS.ToNumber (last_price r)) = false.
Proof.
  unfold stroke.
  destruct (JS.gt (JS.ToNumber (first_price r)) (JS.ToNumber (last_price r))).
  - split; [intro H; now apply red_is_not_green in H | discriminate].
  - tauto.
Qed.

Lemma stroke_red (r : CoinType) :
  stroke r = red
  <-> JS.gt (JS.ToNumber (first_price r)) (JS.ToNumber (last_price r)) = true.
Proof.
  unfold stroke.
  destruct (JS.gt (JS.ToNumber (first_price r)) (JS.ToNumber (last_price r))).
  - tauto.
  - split; [intro H; symmetry in H; now apply red_is_not_green in H | discriminate].
Qed.

(** A NaN at either end is never "greater": the line is green. *)
Lemma stroke_nan_endpoint (r : CoinType) :
  is_nan (JS.ToNumber (first_price r)) = true
  \/ is_nan (JS.ToNumber (last_price r)) = true ->
  stroke r = green.
Proof.
  intros H. apply stroke_green.
  destruct H as [H | H].
  - destruct (JS.ToNumber (first_price r)); try discriminate. apply gt_nan_l.
  - destruct (JS.ToNumber (last_price r)); try discriminate. apply gt_nan_r.
Qed.

(** C4, as the code has it: for every trend series of length ≥ 2 whose first
    and last values are not NaN, the line is green iff the last value is ≥
    the first, and red otherwise; the series [100, 100] is green. *)
Theorem stroke_green_iff_last_ge_first :
  (forall r : CoinType,
      2 <= List.length (price (sparkline_in_7d r)) ->
      is_nan (JS.ToNumber (first_price r)) = false ->
      is_nan (JS.ToNumber (last_price r)) = false ->
      (stroke r = green <-> last_ge_first r)
      /\ (stroke r = red <-> ~ last_ge_first r))
  /\ stroke (coin_with_series [JS.of_Z 100; JS.of_Z 100]) = green.
Proof.
  split; [|reflexivity].
  intros r _ Hf Hl. unfold last_ge_first, num_le.
  rewrite stroke_green, stroke_red, (not_gt_is_le _ _ Hf Hl).
  destruct (SFleb (JS.ToNumber (first_price r)) (JS.ToNumber (last_price r)));
    simpl; split; split; intro H; try discriminate; try reflexivity.
  - now elim H.
Qed.

Lemma stroke_green_iff_last_ge_first_witness :
  2 <= List.length
         (price (sparkline_in_7d (coin_with_series [JS.of_Z 120; JS.of_Z 90])))
  /\ stroke (coin_with_series [JS.of_Z 120; JS.of_Z 90]) = red
  /\ ~ last_ge_first (coin_with_series [JS.of_Z 120; JS.of_Z 90]).
Proof.
  split; [simpl; lia|].
  assert (H := proj1 stroke_green_iff_last_ge_first
                 (coin_with_series [JS.of_Z 120; JS.of_Z 90])).
  simpl in H. specialize (H (le_n 2) eq_refl eq_refl).
  destruct H as [_ Hred]. split.
  - reflexivity.
  - apply Hred. reflexivity.
Defined.

(** C4 as the specification words it fails on a series that starts with NaN:
    the line is green although "last ≥ first" is false. *)
Lemma stroke_nan_series_counterexample :
  2 <= List.length
         (price (sparkline_in_7d (coin_with_series [JS.NaN; JS.of_Z 1])))
  /\ ~ (stroke (coin_with_series [JS.NaN; JS.of_Z 1]) = green
        <-> last_ge_first (coin_with_series [JS.NaN; JS.of_Z 1])).
Proof.
  split; [simpl; lia|].
  intros [H _]. specialize (H eq_refl). discriminate H.
Qed.

(** C9: when the series of a record is not empty, the indices 0 and
    length - 1 that [stroke] reads are in bounds and neither read is
    [undefined]; when it is empty both reads are [undefined] and the line
    is green. *)
Theorem stroke_reads_in_bounds :
  (forall r : CoinType,
      price (sparkline_in_7d r) <> [] ->
      let len := Z.of_nat (List.length (price (sparkline_in_7d r))) in
      (0 <= 0 < len)%Z /\ (0 <= len - 1 < len)%Z
      /\ first_price r <> None /\ last_price r <> None)
  /\ (forall r : CoinType,
        price (sparkline_in_7d r) = [] ->
        first_price r = None /\ last_price r = None /\ stroke r = green).
Proof.
  split.
  - intros r Hne len.
    assert (Hlen : (0 < len)%Z).
    { subst len. destruct (price (sparkline_in_7d r)); [congruence | simpl; lia]. }
    unfold first_price, last_price. fold len.
    rewrite !at_index_in_bounds. fold len. lia.
  - intros r Hnil. unfold stroke, first_price, last_price. rewrite Hnil.
    repeat split; reflexivity.
Qed.

Lemma stroke_reads_in_bounds_witness :
  price (sparkline_in_7d (coin_with_series [JS.of_Z 7])) <> []
  /\ first_price (coin_with_series [JS.of_Z 7]) <> None
  /\ last_price (coin_with_series [JS.of_Z 7]) <> None
  /\ stroke (coin_with_series []) = green.
Proof.
  assert (Hne : price (sparkline_in_7d (coin_with_series [JS.of_Z 7])) <> [])
    by discriminate.
  destruct stroke_reads_in_bounds as [Hin Hout].
  destruct (Hin (coin_with_series [JS.of_Z 7]) Hne) as (_ & _ & Hf & Hl).
  destruct (Hout (coin_with_series []) eq_refl) as (_ & _ & Hg).
  repeat split; assumption.
Defined.

(** ** Strings *)

Lemma code_inj (c d : ascii) : N_of_ascii c = N_of_ascii d -> c = d.
Proof.
  intro H. rewrite <- (ascii_N_embedding c), <- (ascii_N_embedding d).
  now rewrite H.
Qed.

Lemma is_upper_spec (c : ascii) :
  JS.is_upper c = true <-> (65 <= N_of_ascii c <= 90)%N.
Proof.
  unfold JS.is_upper. rewrite andb_true_iff, !N.leb_le. tauto.
Qed.

Lemma is_upper_false (c : ascii) :
  JS.is_upper c = false <-> (N_of_ascii c < 65 \/ 90 < N_of_ascii c)%N.
Proof.
  unfold JS.is_upper. rewrite andb_false_iff, !N.leb_gt. tauto.
Qed.

Lemma lower_code (c : ascii) :
  N_of_ascii (JS.lower_ascii c)
  = if JS.is_upper c then (N_of_ascii c + 32)%N else N_of_ascii c.
Proof.
  unfold JS.lower_ascii. destruct (JS.is_upper c) eqn:Hu; [|reflexivity].
  apply is_upper_spec in Hu. apply N_ascii_embedding. lia.
Qed.

(** Lower-casing identifies exactly the code units that are the same letter. *)
Lemma lower_ascii_same_letter (c d : ascii) :
  JS.lower_ascii c = JS.lower_ascii d <-> same_letter c d.
Proof.
  unfold same_letter. split.
  - intro H. apply (f_equal N_of_ascii) in H. rewrite !lower_code in H.
    destruct (JS.is_upper c) eqn:Hc, (JS.is_upper d) eqn:Hd.
    + left. apply code_inj. lia.
    + right; left. split; [reflexivity | lia].
    + right; right. split; [reflexivity | lia].
    + left. now apply code_inj.
  - intros [-> | [[Hc Hcd] | [Hd Hdc]]]; [reflexivity | |];
      apply code_inj; rewrite !lower_code.
    + rewrite Hc. apply is_upper_spec in Hc.
      assert (Hd : JS.is_upper d = false) by (apply is_upper_false; lia).
      rewrite Hd. lia.
    + rewrite Hd. apply is_upper_spec in Hd.
      assert (Hc : JS.is_upper c = false) by (apply is_upper_false; lia).
      rewrite Hc. lia.
Qed.

Lemma append_assoc (a b c : string) :
  ((a ++ b) ++ c = a ++ (b ++ c))%string.
Proof. induction a as [|x a IH]; simpl; [reflexivity | now rewrite IH]. Qed.

Lemma toLowerCase_append (s t : string) :
  JS.toLowerCase (s ++ t) = (JS.toLowerCase s ++ JS.toLowerCase t)%string.
Proof. induction s as [|c s IH]; simpl; [reflexivity | now rewrite IH]. Qed.

(** A lower-cased string splits where its original does. *)
Lemma toLowerCase_split (s a b : string) :
  JS.toLowerCase s = (a ++ b)%string ->
  exists s1 s2,
    s = (s1 ++ s2)%string /\ JS.toLowerCase s1 = a /\ JS.toLowerCase s2 = b.
Proof.
  revert s. induction a as [|x a IH]; intros s H.
  - exists EmptyString, s. simpl in *. auto.
  - destruct s as [|c s]; simpl in H; [discriminate|].
    injection H as Hc Hrest.
    destruct (IH s Hrest) as (s1 & s2 & -> & H1 & H2).
    exists (String c s1), s2. simpl. rewrite Hc, H1. auto.
Qed.

Lemma toLowerCase_same_text (s t : string) :
  JS.toLowerCase s = JS.toLowerCase t <-> same_text s t.
Proof.
  split.
  - revert t. induction s as [|c s IH]; intros [|d t] H; simpl in H;
      try discriminate.
    + constructor.
    + injection H as Hc Hrest. constructor.
      * now apply lower_ascii_same_letter.
      * now apply IH.
  - induction 1 as [|c d s t Hcd _ IH]; simpl; [reflexivity|].
    apply lower_ascii_same_letter in Hcd. now rewrite Hcd, IH.
Qed.

Lemma prefix_iff (q s : string) :
  prefix q s = true <-> exists post, s = (q ++ post)%string.
Proof.
  revert s. induction q as [|c q IH]; intros s.
  - split; [intros _; now exists s | intros _; now destruct s].
  - destruct s as [|d s]; simpl.
    + split; [discriminate | intros [post H]; discriminate].
    + destruct (ascii_dec c d) as [-> | Hne].
      * rewrite IH. split; intros [post H]; exists post.
        -- now rewrite H.
        -- now injection H.
      * split; [discriminate|].
        intros [post H]. injection H as Hd _. congruence.
Qed.

Lemma includes_unfold (s q : string) :
  JS.includes s q
  = prefix q s
    || match s with
       | EmptyString => false
       | String _ s' => JS.includes s' q
       end.
Proof. now destruct s. Qed.

(** [includes] decides "occurs as a substring". *)
Lemma includes_iff (s q : string) :
  JS.includes s q = true <-> exists pre post, s = (pre ++ q ++ post)%string.
Proof.
  induction s as [|c s IH]; rewrite includes_unfold, orb_true_iff, prefix_iff.
  - split.
    + intros [[post H] | H]; [|discriminate]. now exists EmptyString, post.
    + intros (pre & post & H). left.
      destruct pre; [|discriminate]. now exists post.
  - rewrite IH. split.
    + intros [[post H] | (pre & post & H)].
      * now exists EmptyString, post.
      * exists (String c pre), post. simpl. now rewrite H.
    + intros (pre & post & H). destruct pre as [|x pre]; simpl in H.
      * left. now exists post.
      * right. injection H as _ H. now exists pre, post.
Qed.

(** The test of the filter callback is the containment the specification
    names. *)
Lemma matches_iff (q : string) (coin : CoinType) :
  matches q coin = true <-> contains_ci (name coin) q.
Proof.
  unfold matches, contains_ci. rewrite includes_iff. split.
  - intros (pre & post & H).
    apply toLowerCase_split in H. destruct H as (s1 & s23 & Hs & H1 & H23).
    apply toLowerCase_split in H23. destruct H23 as (s2 & s3 & -> & H2 & H3).
    exists s1, s2, s3. split; [assumption|].
    now apply toLowerCase_same_text.
  - intros (pre & mid & post & Hs & Hmid).
    apply toLowerCase_same_text in Hmid.
    exists (JS.toLowerCase pre), (JS.toLowerCase post).
    now rewrite Hs, !toLowerCase_append, Hmid.
Qed.

Lemma matches_empty_query (coin : CoinType) : matches "" coin = true.
Proof.
  unfold matches. simpl. now destruct (JS.toLowerCase (name coin)).
Qed.

(** ** Subsequences *)

Lemma filter_selects {A : Type} (f : A -> bool) (P : A -> Prop) (D : list A) :
  (forall x, f x = true <-> P x) -> selects P D (filter f D).
Proof.
  intro Hf. induction D as [|x D IH]; simpl.
  - constructor.
  - destruct (f x) eqn:Hx.
    + apply selects_keep; [now apply Hf | assumption].
    + apply selects_skip; [|assumption].
      intro HP. apply Hf in HP. congruence.
Qed.

(** The relation names one subsequence only. *)
Lemma selects_unique {A : Type} (P : A -> Prop) (D R1 R2 : list A) :
  selects P D R1 -> selects P D R2 -> R1 = R2.
Proof.
  intro H1. revert R2.
  induction H1 as [|x D R HP _ IH | x D R HP _ IH]; intros R2 H2;
    inversion H2; subst; try contradiction; try reflexivity.
  - f_equal. now apply IH.
  - now apply IH.
Qed.

Lemma selects_all {A : Type} (P : A -> Prop) (D R : list A) :
  (forall x, P x) -> selects P D R -> R = D.
Proof.
  intros HP H. induction H as [|x D R _ _ IH | x D R Hn _ _].
  - reflexivity.
  - now rewrite IH.
  - elim Hn. apply HP.
Qed.

(** ** Frames: a run of calls leaves the cells it does not write *)

Lemma commit_app (st : State) (a b : list Call) :
  commit st (a ++ b) = commit (commit st a) b.
Proof. unfold commit. apply fold_left_app. Qed.

Section Frames.

Variable cell : Cell.
Variable X : Type.
Variable proj : State -> X.
Hypothesis apply_frame :
  forall st c, writes c <> Some cell -> proj (apply st c) = proj st.

Lemma commit_frame (calls : list Call) (st : State) :
  Forall (fun c => writes c <> Some cell) calls ->
  proj (commit st calls) = proj st.
Proof.
  intro H. revert st. induction H as [|c calls Hc _ IH]; intro st.
  - reflexivity.
  - unfold commit in *. simpl. rewrite IH. now apply apply_frame.
Qed.

End Frames.

Ltac frame_of_apply :=
  intros ? [] ?; simpl in *; solve [reflexivity | congruence].

Lemma commit_currency (calls : list Call) (st : State) :
  Forall (fun c => writes c <> Some CurrencyCell) calls ->
  currency (commit st calls) = currency st.
Proof. apply (commit_frame CurrencyCell _ currency). frame_of_apply. Qed.

Lemma commit_pagination (calls : list Call) (st : State) :
  Forall (fun c => writes c <> Some PaginationCell) calls ->
  pagination (commit st calls) = pagination st.
Proof. apply (commit_frame PaginationCell _ pagination). frame_of_apply. Qed.

Lemma commit_data (calls : list Call) (st : State) :
  Forall (fun c => writes c <> Some DataCell) calls ->
  data (commit st calls) = data st.
Proof. apply (commit_frame DataCell _ data). frame_of_apply. Qed.

Lemma commit_filterQuery (calls : list Call) (st : State) :
  Forall (fun c => writes c <> Some FilterQueryCell) calls ->
  filterQuery (commit st calls) = filterQuery st.
Proof. apply (commit_frame FilterQueryCell _ filterQuery). frame_of_apply. Qed.

Lemma commit_filteredData (calls : list Call) (st : State) :
  Forall (fun c => writes c <> Some FilteredDataCell) calls ->
  filteredData (commit st calls) = filteredData st.
Proof. apply (commit_frame FilteredDataCell _ filteredData). frame_of_apply. Qed.

(** ** The calls of each piece of code *)

Lemma calls_handleCurrencyChange (st : State) (k : string) :
  calls_of (handleCurrencyChange st k)
  = [ SetPagination (with_current (pagination st) 1);
      SetCurrency (Currency.mk (JS.at_index (JS.split k " ") 0)
                               (JS.at_index (JS.split k " ") 1)) ].
Proof. reflexivity. Qed.

Lemma calls_handleSortOrder (st : State) (k : string) :
  calls_of (handleSortOrder st k)
  = if k =? "market_cap_desc" then
      [ SetPagination (with_current (pagination st) 1);
        SetSortOrder (SortOrder.mk "Market Cap Decending" "market_cap_desc") ]
    else if k =? "market_cap_asc" then
      [ SetPagination (with_current (pagination st) 1);
        SetSortOrder (SortOrder.mk "Market Cap Ascending" "market_cap_asc") ]
    else [].
Proof.
  unfold handleSortOrder.
  destruct (k =? "market_cap_desc"); [reflexivity|].
  destruct (k =? "market_cap_asc"); reflexivity.
Qed.

Lemma calls_fetchEffect (st : State) :
  calls_of (fetchEffect st)
  = match Currency.label (currency st) with
    | Some l => [ SetIsLoading true; AxiosGet (request_template l st) ]
    | None => [ SetIsLoading true; ToastError failure_message;
                SetIsLoading false ]
    end.
Proof.
  unfold fetchEffect, request_url.
  destruct (Currency.label (currency st)); reflexivity.
Qed.

(** The fetch function is suspended exactly when it has issued its request. *)
Lemma launch_fetchEffect (st : State) :
  launch st (fetchEffect st)
  = (calls_of (fetchEffect st),
     match Currency.label (currency st) with
     | Some _ => [st]
     | None => []
     end).
Proof.
  unfold launch, calls_of, fetchEffect, request_url.
  destruct (Currency.label (currency st)); reflexivity.
Qed.

(** The code after the [await]: [setData] or the toast, then
    [setIsLoading(false)]; it does not suspend again. *)
Lemma sync_resume_fetchEffect (st : State) (o : Outcome) :
  sync (resume (fetchEffect st) o)
  = (match Currency.label (currency st), o with
     | Some _, Resolved d => [ SetData d; SetIsLoading false ]
     | Some _, Rejected => [ ToastError failure_message; SetIsLoading false ]
     | None, _ => []
     end,
     Finished (Some tt)).
Proof.
  unfold resume, fetchEffect, request_url.
  destruct (Currency.label (currency st)), o; reflexivity.
Qed.

Lemma calls_filterEffect (st : State) :
  calls_of (filterEffect st)
  = if JS.truthy (filterQuery st)
    then [ SetFilteredData (filter (matches (filterQuery st)) (data st)) ]
    else [].
Proof. unfold filterEffect. now destruct (JS.truthy (filterQuery st)). Qed.

Lemma launch_filterEffect (st : State) :
  launch st (filterEffect st) = (calls_of (filterEffect st), []).
Proof.
  unfold launch, calls_of, filterEffect.
  now destruct (JS.truthy (filterQuery st)).
Qed.

Lemma effects_calls (st : State) (run_fetch run_filter : bool) :
  fst (effects st run_fetch run_filter)
  = (if run_fetch then calls_of (fetchEffect st) else [])
    ++ (if run_filter then calls_of (filterEffect st) else []).
Proof.
  unfold effects. rewrite launch_fetchEffect, launch_filterEffect.
  now destruct run_fetch, run_filter.
Qed.

Lemma effects_suspended (st : State) (run_fetch run_filter : bool) :
  snd (effects st run_fetch run_filter)
  = if run_fetch
    then match Currency.label (currency st) with
         | Some _ => [st]
         | None => []
         end
    else [].
Proof.
  unfold effects. rewrite launch_fetchEffect, launch_filterEffect.
  destruct run_fetch, run_filter; simpl; try reflexivity; apply app_nil_r.
Qed.

(** The effects write [isLoading] and [filteredData] only: one round of
    effects changes no dependency of an effect. *)
Lemma effects_write (st : State) (run_fetch run_filter : bool) :
  Forall (fun c => writes c = Some IsLoadingCell
                   \/ writes c = Some FilteredDataCell
                   \/ writes c = None)
    (fst (effects st run_fetch run_filter)).
Proof.
  rewrite effects_calls, calls_fetchEffect, calls_filterEffect.
  apply Forall_app. split.
  - destruct run_fetch; [|constructor].
    destruct (Currency.label (currency st));
      repeat (apply Forall_cons; [simpl; auto|]); apply Forall_nil.
  - destruct run_filter; [|constructor].
    destruct (JS.truthy (filterQuery st));
      repeat (apply Forall_cons; [simpl; auto|]); apply Forall_nil.
Qed.

Lemma effects_keep (cell : Cell) (st : State) (run_fetch run_filter : bool) :
  cell <> IsLoadingCell -> cell <> FilteredDataCell ->
  Forall (fun c => writes c <> Some cell)
    (fst (effects st run_fetch run_filter)).
Proof.
  intros H1 H2. eapply Forall_impl; [|apply effects_write].
  intros c [H | [H | H]]; rewrite H; congruence.
Qed.

(** ** One step *)

Lemma calls_handler (w : World) (ev : Event) :
  calls_of (handler w ev)
  = match ev with
    | CurrencyClick k => calls_of (handleCurrencyChange (ui w) k)
    | SortOrderClick k => calls_of (handleSortOrder (ui w) k)
    | PageChange c s =>
        [ SetPagination
            (Pagination.mk (Pagination.totalCount (pagination (ui w))) s c) ]
    | SearchInput v => [ SetFilterQuery v ]
    | FetchSettled i o =>
        match nth_error (inflight w) i with
        | Some captured =>
            match Currency.label (currency captured), o with
            | Some _, Resolved d => [ SetData d; SetIsLoading false ]
            | Some _, Rejected =>
                [ ToastError failure_message; SetIsLoading false ]
            | None, _ => []
            end
        | None => []
        end
    end.
Proof.
  destruct ev as [k | k | c s | v | i o]; try reflexivity.
  simpl. destruct (nth_error (inflight w) i) as [captured|]; [|reflexivity].
  unfold calls_of. now rewrite sync_resume_fetchEffect.
Qed.

(** No handler writes the stored filtered set. *)
Lemma handler_keeps_filteredData (w : World) (ev : Event) :
  Forall (fun c => writes c <> Some FilteredDataCell) (calls_of (handler w ev)).
Proof.
  rewrite calls_handler.
  destruct ev as [k | k | c s | v | i o].
  - rewrite calls_handleCurrencyChange. repeat constructor; discriminate.
  - rewrite calls_handleSortOrder.
    destruct (k =? "market_cap_desc"); [repeat constructor; discriminate|].
    destruct (k =? "market_cap_asc"); repeat constructor; discriminate.
  - repeat constructor; discriminate.
  - repeat constructor; discriminate.
  - destruct (nth_error (inflight w) i) as [captured|]; [|constructor].
    destruct (Currency.label (currency captured)), o;
      repeat constructor; discriminate.
Qed.

Lemma no_data_call (calls : list Call) :
  existsb touches_data calls = false ->
  Forall (fun c => writes c <> Some DataCell) calls.
Proof.
  induction calls as [|c calls IH]; simpl; intro H; constructor.
  - destruct c; simpl in *; discriminate.
  - apply IH. now apply orb_false_iff in H.
Qed.

Lemma ui_step (w : World) (ev : Event) :
  ui (fst (step w ev)) = commit (rendered w ev) (fst (effects_of w ev)).
Proof. reflexivity. Qed.

Lemma currency_step (w : World) (ev : Event) :
  currency (ui (fst (step w ev))) = currency (rendered w ev).
Proof.
  rewrite ui_step. apply commit_currency, effects_keep; discriminate.
Qed.

Lemma pagination_step (w : World) (ev : Event) :
  pagination (ui (fst (step w ev))) = pagination (rendered w ev).
Proof.
  rewrite ui_step. apply commit_pagination, effects_keep; discriminate.
Qed.

Lemma data_step (w : World) (ev : Event) :
  data (ui (fst (step w ev))) = data (rendered w ev).
Proof.
  rewrite ui_step. apply commit_data, effects_keep; discriminate.
Qed.

Lemma filterQuery_step (w : World) (ev : Event) :
  filterQuery (ui (fst (step w ev))) = filterQuery (rendered w ev).
Proof.
  rewrite ui_step. apply commit_filterQuery, effects_keep; discriminate.
Qed.

(** The stored filtered set after a step: recomputed when the filter effect
    ran with a non-empty query, and otherwise what it was. *)
Lemma filteredData_step (w : World) (ev : Event) :
  filteredData (ui (fst (step w ev)))
  = if filter_deps_changed (ui w) (rendered w ev) (calls_of (handler w ev))
       && JS.truthy (filterQuery (rendered w ev))
    then filter (matches (filterQuery (rendered w ev))) (data (rendered w ev))
    else filteredData (ui w).
Proof.
  rewrite ui_step. unfold effects_of.
  rewrite effects_calls, commit_app, calls_filterEffect.
  set (st1 := rendered w ev).
  set (st2 := commit st1 _).
  assert (Hfd : filteredData st2 = filteredData (ui w)).
  { subst st2. rewrite commit_filteredData.
    - subst st1. unfold rendered.
      apply commit_filteredData, handler_keeps_filteredData.
    - destruct (fetch_deps_changed _); [|constructor].
      rewrite calls_fetchEffect.
      destruct (Currency.label (currency st1));
        repeat constructor; discriminate. }
  destruct (filter_deps_changed _ _ _); simpl; [|assumption].
  destruct (JS.truthy (filterQuery st1)); simpl; [reflexivity | assumption].
Qed.

(** In a step that does not run the filter effect, neither of its inputs
    changed. *)
Lemma filter_inputs_unchanged (w : World) (ev : Event) :
  filter_deps_changed (ui w) (rendered w ev) (calls_of (handler w ev)) = false ->
  filterQuery (rendered w ev) = filterQuery (ui w)
  /\ data (rendered w ev) = data (ui w).
Proof.
  unfold filter_deps_changed. intro H. apply orb_false_iff in H.
  destruct H as [Hq Hd]. split.
  - apply negb_false_iff, String.eqb_eq in Hq. now symmetry.
  - unfold rendered. now apply commit_data, no_data_call.
Qed.

(** Every step keeps the stored filtered set in step with an active query. *)
Lemma view_in_sync_step (w : World) (ev : Event) :
  view_in_sync (ui w) -> view_in_sync (ui (fst (step w ev))).
Proof.
  unfold view_in_sync. intros Hinv.
  rewrite filterQuery_step, data_step, filteredData_step.
  intro Hq. rewrite Hq, andb_true_r.
  destruct (filter_deps_changed _ _ _) eqn:Hdeps; [reflexivity|].
  destruct (filter_inputs_unchanged w ev Hdeps) as [Hsame_q Hsame_d].
  rewrite Hsame_q, Hsame_d in *. now apply Hinv.
Qed.

Lemma run_app (w : World) (evs1 evs2 : list Event) :
  run w (evs1 ++ evs2) = run (run w evs1) evs2.
Proof.
  revert w. induction evs1 as [|ev evs1 IH]; intro w; simpl;
    [reflexivity | apply IH].
Qed.

(** Induction over the runs of the component. *)
Lemma run_invariant (P : World -> Prop) (ok : Event -> Prop) :
  (forall w ev, ok ev -> P w -> P (fst (step w ev))) ->
  forall evs w, Forall ok evs -> P w -> P (run w evs).
Proof.
  intros Hstep evs. induction evs as [|ev evs IH]; intros w Hok Hw; simpl.
  - assumption.
  - inversion Hok; subst. apply IH; [assumption|]. now apply Hstep.
Qed.

Lemma view_in_sync_reachable (w : World) :
  reachable w -> view_in_sync (ui w).
Proof.
  intros [evs ->].
  apply (run_invariant (fun w => view_in_sync (ui w)) (fun _ => True)).
  - intros w ev _. apply view_in_sync_step.
  - apply Forall_forall. trivial.
  - intro H. discriminate H.
Qed.

(** ** The filter stage *)

Lemma truthy_iff (s : string) : JS.truthy s = true <-> s <> "".
Proof. destruct s; simpl; split; congruence. Qed.

Lemma truthy_empty (s : string) : JS.truthy s = false <-> s = "".
Proof. destruct s; simpl; split; congruence. Qed.

(** Filtering by the callback selects the records whose name contains the
    query. *)
Lemma filter_matches_selects (q : string) (D : list CoinType) :
  selects (fun c => contains_ci (name c) q) D (filter (matches q) D).
Proof. apply filter_selects. intro c. apply matches_iff. Qed.

Lemma selects_everything {A : Type} (P : A -> Prop) (D : list A) :
  (forall x, P x) -> selects P D D.
Proof.
  intro HP. induction D as [|x D IH]; constructor; [apply HP | assumption].
Qed.

Lemma filter_stage_output_spec (st : State) :
  filter_stage_output st
  = if JS.truthy (filterQuery st)
    then filter (matches (filterQuery st)) (data st)
    else filteredData st.
Proof.
  unfold filter_stage_output. rewrite calls_filterEffect.
  now destruct (JS.truthy (filterQuery st)).
Qed.

Lemma reachable_loaded (D : list CoinType) : reachable (loaded D).
Proof. now exists [FetchSettled 0 (Resolved D)]. Qed.

Lemma reachable_step (w : World) (ev : Event) :
  reachable w -> reachable (fst (step w ev)).
Proof.
  intros [evs ->]. exists (evs ++ [ev]). now rewrite run_app.
Qed.

(** C1, as the code has it, for names and queries of ASCII code units: for
    every state whose query is not empty, the filter stage stores exactly the
    subsequence of the fetched records whose name contains the query as a
    substring up to the case of ASCII letters, in the order of the fetched
    collection, and the table shows it; in every reachable state, whatever
    the ASCII query, the rows the table shows are that subsequence; with
    fetched names Bitcoin, Ethereum, Bitcoin Cash and query "bit" the filtered
    view is Bitcoin, Bitcoin Cash. *)
Theorem filter_stage_selects_matching :
  (forall st : State,
      filterQuery st <> "" ->
      is_ascii (filterQuery st) = true ->
      ascii_names (data st) ->
      selects (fun c => contains_ci (name c) (filterQuery st))
        (data st) (filter_stage_output st)
      /\ dataSource (commit st (calls_of (filterEffect st)))
         = filter_stage_output st)
  /\ (forall w : World,
        reachable w ->
        is_ascii (filterQuery (ui w)) = true ->
        ascii_names (data (ui w)) ->
        selects (fun c => contains_ci (name c) (filterQuery (ui w)))
          (data (ui w)) (dataSource (ui w)))
  /\ (forall D : list CoinType,
        map name D = ["Bitcoin"; "Ethereum"; "Bitcoin Cash"] ->
        let w := fst (step (loaded D) (SearchInput "bit")) in
        data (ui w) = D
        /\ filteredData (ui w) = dataSource (ui w)
        /\ map name (dataSource (ui w)) = ["Bitcoin"; "Bitcoin Cash"]).
Proof.
  split; [|split].
  - intros st Hq _ _. apply truthy_iff in Hq.
    rewrite filter_stage_output_spec, Hq. split.
    + apply filter_matches_selects.
    + rewrite calls_filterEffect, Hq. unfold dataSource. simpl. now rewrite Hq.
  - intros w Hw _ _. unfold dataSource.
    destruct (JS.truthy (filterQuery (ui w))) eqn:Hq.
    + rewrite (view_in_sync_reachable w Hw Hq). apply filter_matches_selects.
    + apply truthy_empty in Hq. rewrite Hq.
      apply selects_everything. intro c.
      apply matches_iff, matches_empty_query.
  - intros D HD.
    destruct D as [|[n1 ? ? ? ?] [|[n2 ? ? ? ?] [|[n3 ? ? ? ?] [|? ?]]]];
      try discriminate.
    simpl in HD. injection HD as -> -> ->. repeat split; reflexivity.
Qed.

Lemma filter_stage_selects_matching_witness :
  filterQuery (ui (fst (step (loaded sample_coins) (SearchInput "bit")))) <> ""
  /\ is_ascii
       (filterQuery (ui (fst (step (loaded sample_coins) (SearchInput "bit")))))
     = true
  /\ ascii_names
       (data (ui (fst (step (loaded sample_coins) (SearchInput "bit")))))
  /\ map name
       (filter_stage_output
          (ui (fst (step (loaded sample_coins) (SearchInput "bit")))))
     = ["Bitcoin"; "Bitcoin Cash"].
Proof.
  assert (Hq : filterQuery
                 (ui (fst (step (loaded sample_coins) (SearchInput "bit"))))
               <> "") by discriminate.
  assert (Ha : is_ascii
                 (filterQuery
                    (ui (fst (step (loaded sample_coins) (SearchInput "bit")))))
               = true) by reflexivity.
  assert (Hn : ascii_names
                 (data (ui (fst (step (loaded sample_coins)
                                  (SearchInput "bit")))))).
  { repeat (apply Forall_cons; [reflexivity|]). apply Forall_nil. }
  split; [exact Hq|]. split; [exact Ha|]. split; [exact Hn|].
  destruct (proj1 filter_stage_selects_matching _ Hq Ha Hn) as [_ Hshown].
  rewrite <- Hshown. reflexivity.
Defined.

(** C1 as the specification words it fails for the empty query: with three
    coins fetched and nothing typed, the filter stage stores nothing, while
    every name contains the empty string. *)
Lemma filter_stage_empty_query_counterexample :
  data (ui (loaded sample_coins)) = sample_coins
  /\ filterQuery (ui (loaded sample_coins)) = ""
  /\ filter_stage_output (ui (loaded sample_coins)) = []
  /\ ~ selects
         (fun c => contains_ci (name c) (filterQuery (ui (loaded sample_coins))))
         (data (ui (loaded sample_coins)))
         (filter_stage_output (ui (loaded sample_coins))).
Proof.
  repeat split; try reflexivity.
  intro H. apply selects_all in H.
  - discriminate H.
  - intro c. apply matches_iff, matches_empty_query.
Qed.

(** ** Selections and pagination *)

Lemma sort_key_cases (k : string) :
  In k (map item_key sortOrderItems) ->
  k = "market_cap_desc" \/ k = "market_cap_asc".
Proof. simpl. intros [H | [H | []]]; auto. Qed.

Lemma currency_key_cases (k : string) :
  In k (map item_key currencyItems) -> k = "USD $" \/ k = "EUR €".
Proof. simpl. intros [H | [H | []]]; auto. Qed.

(** C2: whatever the page before, handling a currency selection or a
    sort-order selection sets the current page to 1. *)
Theorem selection_resets_page :
  (forall (w : World) (k : string),
      Pagination.current (pagination (ui (fst (step w (CurrencyClick k))))) = 1%Z)
  /\ (forall (w : World) (k : string),
        In k (map item_key sortOrderItems) ->
        Pagination.current (pagination (ui (fst (step w (SortOrderClick k)))))
        = 1%Z).
Proof.
  split.
  - intros w k. now rewrite pagination_step.
  - intros w k Hk. rewrite pagination_step.
    destruct (sort_key_cases k Hk) as [-> | ->]; reflexivity.
Qed.

Lemma selection_resets_page_witness :
  Pagination.current
    (pagination (ui (fst (step (loaded sample_coins) (PageChange 7 10))))) = 7%Z
  /\ In "market_cap_asc" (map item_key sortOrderItems)
  /\ Pagination.current
       (pagination
          (ui (fst (step (fst (step (loaded sample_coins) (PageChange 7 10)))
                      (SortOrderClick "market_cap_asc"))))) = 1%Z.
Proof.
  split; [reflexivity|].
  assert (Hk : In "market_cap_asc" (map item_key sortOrderItems))
    by (simpl; auto).
  split; [exact Hk|].
  exact (proj2 selection_resets_page
           (fst (step (loaded sample_coins) (PageChange 7 10)))
           "market_cap_asc" Hk).
Defined.

(** A key that is not in the sort menu changes nothing. *)
Lemma unknown_sort_key_is_ignored (w : World) (k : string) :
  k <> "market_cap_desc" -> k <> "market_cap_asc" ->
  snd (step w (SortOrderClick k)) = [] /\ ui (fst (step w (SortOrderClick k))) = ui w.
Proof.
  intros H1 H2. apply String.eqb_neq in H1, H2.
  assert (Hc : calls_of (handler w (SortOrderClick k)) = []).
  { rewrite calls_handler, calls_handleSortOrder. now rewrite H1, H2. }
  assert (He : fst (effects_of w (SortOrderClick k)) = []).
  { unfold effects_of, rendered. rewrite Hc. simpl.
    unfold filter_deps_changed. rewrite String.eqb_refl. reflexivity. }
  split.
  - unfold step. cbn [snd]. now rewrite Hc, He.
  - rewrite ui_step, He. unfold rendered. now rewrite Hc.
Qed.

Lemma totalCount_rendered (w : World) (ev : Event) :
  Pagination.totalCount (pagination (rendered w ev))
  = Pagination.totalCount (pagination (ui w)).
Proof.
  unfold rendered. rewrite calls_handler.
  destruct ev as [k | k | c s | v | i o]; try reflexivity.
  - rewrite calls_handleSortOrder.
    destruct (k =? "market_cap_desc"); [reflexivity|].
    destruct (k =? "market_cap_asc"); reflexivity.
  - destruct (nth_error (inflight w) i) as [captured|]; [|reflexivity].
    destruct (Currency.label (currency captured)), o; reflexivity.
Qed.

(** C8: the total count starts at the literal 10000 and no transition
    changes it, whatever it carries (page and page size, a menu key, the data
    of a response, a failure); it is 10000 in every reachable state. *)
Theorem totalCount_is_constant :
  Pagination.totalCount (pagination initialState) = 10000%Z
  /\ (forall (w : World) (ev : Event),
        Pagination.totalCount (pagination (ui (fst (step w ev))))
        = Pagination.totalCount (pagination (ui w)))
  /\ (forall evs : list Event,
        Pagination.totalCount (pagination (ui (run (fst mount) evs)))
        = 10000%Z).
Proof.
  assert (Hstep : forall w ev,
             Pagination.totalCount (pagination (ui (fst (step w ev))))
             = Pagination.totalCount (pagination (ui w))).
  { intros w ev. rewrite pagination_step. apply totalCount_rendered. }
  split; [reflexivity|]. split; [exact Hstep|].
  intro evs.
  apply (run_invariant
           (fun w => Pagination.totalCount (pagination (ui w)) = 10000%Z)
           (fun _ => True)).
  - intros w ev _ Hw. now rewrite Hstep.
  - apply Forall_forall. trivial.
  - reflexivity.
Qed.

(** ** Currency *)

Lemma currency_rendered (w : World) (ev : Event) :
  currency (rendered w ev)
  = match ev with
    | CurrencyClick k =>
        Currency.mk (JS.at_index (JS.split k " ") 0)
                    (JS.at_index (JS.split k " ") 1)
    | _ => currency (ui w)
    end.
Proof.
  unfold rendered. rewrite calls_handler.
  destruct ev as [k | k | c s | v | i o]; try reflexivity.
  - rewrite calls_handleSortOrder.
    destruct (k =? "market_cap_desc"); [reflexivity|].
    destruct (k =? "market_cap_asc"); reflexivity.
  - destruct (nth_error (inflight w) i) as [captured|]; [|reflexivity].
    destruct (Currency.label (currency captured)), o; reflexivity.
Qed.

(** C10: from the initial currency, after any sequence of events in which
    every currency click carries a key of the currency menu, label "USD"
    comes with symbol "$" and label "EUR" with symbol "€"; the handler takes
    both fields from the pieces of the key split on one space. *)
Theorem currency_stays_consistent :
  forall evs : list Event,
    Forall currency_from_menu evs ->
    consistent (currency (ui (run (fst mount) evs)))
    /\ (forall (w : World) (k : string),
          currency (ui (fst (step w (CurrencyClick k))))
          = Currency.mk (JS.at_index (JS.split k " ") 0)
                        (JS.at_index (JS.split k " ") 1)).
Proof.
  intros evs Hevs. split.
  - apply (run_invariant (fun w => consistent (currency (ui w)))
             currency_from_menu); [|assumption|].
    + intros w ev Hev Hw. rewrite currency_step, currency_rendered.
      destruct ev as [k | k | c s | v | i o]; try assumption.
      destruct (currency_key_cases k Hev) as [-> | ->];
        split; simpl; intro H; try reflexivity; discriminate H.
    + split; simpl; intro H; try reflexivity; discriminate H.
  - intros w k. now rewrite currency_step, currency_rendered.
Qed.

Lemma currency_stays_consistent_witness :
  Forall currency_from_menu
    [CurrencyClick "EUR €"; PageChange 3 10; CurrencyClick "USD $";
     CurrencyClick "EUR €"]
  /\ consistent
       (currency
          (ui (run (fst mount)
                 [CurrencyClick "EUR €"; PageChange 3 10; CurrencyClick "USD $";
                  CurrencyClick "EUR €"])))
  /\ currency
       (ui (run (fst mount)
              [CurrencyClick "EUR €"; PageChange 3 10; CurrencyClick "USD $";
               CurrencyClick "EUR €"]))
     = Currency.mk (Some "EUR") (Some "€").
Proof.
  assert (H : Forall currency_from_menu
                [CurrencyClick "EUR €"; PageChange 3 10; CurrencyClick "USD $";
                 CurrencyClick "EUR €"]).
  { repeat (apply Forall_cons; [simpl; auto|]). apply Forall_nil. }
  split; [exact H|]. split.
  - exact (proj1 (currency_stays_consistent _ H)).
  - reflexivity.
Defined.

(** Off the menu the two fields can disagree. *)
Example off_menu_key_is_inconsistent :
  ~ consistent (currency (ui (fst (step (fst mount) (CurrencyClick "USD €"))))).
Proof. intros [H _]. specialize (H eq_refl). discriminate H. Qed.

(** ** The fetch *)

Lemma commit_nil (st : State) : commit st [] = st.
Proof. reflexivity. Qed.

(** A rejected request runs no effect: nothing it calls is a dependency. *)
Lemma rejected_runs_no_effect (w : World) (i : nat) :
  effects_of w (FetchSettled i Rejected) = ([], []).
Proof.
  unfold effects_of, rendered. rewrite calls_handler.
  destruct (nth_error (inflight w) i) as [captured|].
  - destruct (Currency.label (currency captured)); simpl;
      unfold filter_deps_changed; simpl; now rewrite String.eqb_refl.
  - simpl. unfold filter_deps_changed. simpl. now rewrite String.eqb_refl.
Qed.

Lemma Forall_remove_nth {A : Type} (P : A -> Prop) (i : nat) (l : list A) :
  Forall P l -> Forall P (remove_nth i l).
Proof.
  intro H. revert i. induction H as [|x l Hx Hl IH]; intro i.
  - now destruct i.
  - destruct i as [|i]; simpl; [assumption|]. constructor; [assumption | apply IH].
Qed.

(** A suspended run of the fetch function has issued its request, so the
    currency label its closure captured is a string. *)
Lemma inflight_have_label (w : World) :
  reachable w ->
  Forall (fun c => Currency.label (currency c) <> None) (inflight w).
Proof.
  intros [evs ->].
  apply (run_invariant
           (fun w => Forall (fun c => Currency.label (currency c) <> None)
                       (inflight w))
           (fun _ => True)).
  - intros w ev _ Hw. unfold step. cbn [fst inflight].
    apply Forall_app. split.
    + destruct ev; simpl; try assumption. now apply Forall_remove_nth.
    + unfold effects_of. rewrite effects_suspended.
      destruct (fetch_deps_changed _); [|constructor].
      destruct (Currency.label (currency (rendered w ev))) eqn:Hl;
        constructor; [congruence | constructor].
  - apply Forall_forall. trivial.
  - repeat constructor. discriminate.
Qed.

(** C5: when the fetch fails, the run of the fetch function never calls
    [setData] and leaves the coin collection as it was, calls
    [setIsLoading(false)] exactly once, raises the toast "Failed to fetch
    data, try again later" once, and issues no request after the failure;
    the step in which a request is rejected keeps the data and the stored
    filtered set and leaves no new request in flight, and in a reachable
    state that step makes exactly two calls: the toast, then
    [setIsLoading(false)]. *)
Theorem fetch_failure_path :
  failure_message = "Failed to fetch data, try again later"
  /\ (forall st : State,
        data (commit st (fetch_run st Rejected)) = data st
        /\ Forall (fun c => writes c <> Some DataCell) (fetch_run st Rejected)
        /\ List.length (filter clears_loading (fetch_run st Rejected)) = 1
        /\ toasts (fetch_run st Rejected) = [failure_message]
        /\ isLoading (commit st (fetch_run st Rejected)) = false
        /\ List.length (requests (fetch_run st Rejected)) <= 1
        /\ requests (calls_of (resume (fetchEffect st) Rejected)) = []
        /\ snd (sync (resume (fetchEffect st) Rejected)) = Finished (Some tt))
  /\ (forall (w : World) (i : nat),
        data (ui (fst (step w (FetchSettled i Rejected)))) = data (ui w)
        /\ filteredData (ui (fst (step w (FetchSettled i Rejected))))
           = filteredData (ui w)
        /\ Forall (fun c => writes c <> Some DataCell)
             (snd (step w (FetchSettled i Rejected)))
        /\ requests (snd (step w (FetchSettled i Rejected))) = []
        /\ inflight (fst (step w (FetchSettled i Rejected)))
           = remove_nth i (inflight w))
  /\ (forall (w : World) (i : nat),
        reachable w ->
        i < List.length (inflight w) ->
        snd (step w (FetchSettled i Rejected))
        = [ToastError failure_message; SetIsLoading false]
        /\ isLoading (ui (fst (step w (FetchSettled i Rejected)))) = false).
Proof.
  split; [reflexivity|]. split; [|split].
  - intro st. unfold fetch_run.
    rewrite calls_fetchEffect. unfold calls_of at 1 2 3 4 5 6 7.
    rewrite sync_resume_fetchEffect.
    destruct (Currency.label (currency st)); simpl;
      repeat split; try reflexivity; try lia;
      repeat (apply Forall_cons; [discriminate|]); apply Forall_nil.
  - intros w i.
    assert (Hcalls :
              Forall (fun c => writes c <> Some DataCell
                               /\ writes c <> Some FilteredDataCell)
                (calls_of (handler w (FetchSettled i Rejected)))
              /\ requests (calls_of (handler w (FetchSettled i Rejected))) = []).
    { rewrite calls_handler.
      destruct (nth_error (inflight w) i) as [captured|];
        [destruct (Currency.label (currency captured))|];
        (split; [|reflexivity]);
        repeat (apply Forall_cons; [split; discriminate|]); apply Forall_nil. }
    destruct Hcalls as [Hframe Hreq].
    unfold step. cbn [fst snd ui inflight still_inflight].
    rewrite rejected_runs_no_effect. cbn [fst snd].
    rewrite !app_nil_r, commit_nil.
    unfold rendered. repeat split.
    + apply commit_data. eapply Forall_impl; [|exact Hframe]. now intros c [].
    + apply commit_filteredData.
      eapply Forall_impl; [|exact Hframe]. now intros c [].
    + eapply Forall_impl; [|exact Hframe]. now intros c [].
    + exact Hreq.
  - intros w i Hw Hi.
    destruct (nth_error (inflight w) i) as [captured|] eqn:Hnth;
      [|apply nth_error_None in Hnth; lia].
    assert (Hl : Currency.label (currency captured) <> None).
    { pose proof (inflight_have_label w Hw) as Hall.
      rewrite Forall_forall in Hall. apply Hall.
      eapply nth_error_In, Hnth. }
    assert (Hc : calls_of (handler w (FetchSettled i Rejected))
                 = [ToastError failure_message; SetIsLoading false]).
    { rewrite calls_handler, Hnth.
      destruct (Currency.label (currency captured)); congruence. }
    unfold step. cbn [fst snd ui].
    rewrite rejected_runs_no_effect. cbn [fst snd].
    rewrite app_nil_r, commit_nil. unfold rendered. rewrite Hc.
    split; reflexivity.
Qed.

Lemma fetch_failure_path_witness :
  reachable (fst mount)
  /\ 0 < List.length (inflight (fst mount))
  /\ snd (step (fst mount) (FetchSettled 0 Rejected))
     = [ToastError "Failed to fetch data, try again later"; SetIsLoading false]
  /\ data (ui (fst (step (fst mount) (FetchSettled 0 Rejected)))) = [].
Proof.
  assert (Hr : reachable (fst mount)) by now exists [].
  assert (Hi : 0 < List.length (inflight (fst mount))) by (simpl; lia).
  split; [exact Hr|]. split; [exact Hi|].
  destruct fetch_failure_path as (_ & _ & Hframe & Hstep).
  split.
  - exact (proj1 (Hstep (fst mount) 0 Hr Hi)).
  - exact (proj1 (Hframe (fst mount) 0)).
Defined.

(** A resolved request replaces the data by the response, whatever the data
    was. *)
Lemma fetch_success_replaces_data (w : World) (i : nat) (captured : State)
    (D : list CoinType) :
  nth_error (inflight w) i = Some captured ->
  Currency.label (currency captured) <> None ->
  data (ui (fst (step w (FetchSettled i (Resolved D))))) = D
  /\ In (SetData D) (snd (step w (FetchSettled i (Resolved D)))).
Proof.
  intros Hi Hl. rewrite data_step. unfold step, rendered. cbn [snd].
  rewrite calls_handler, Hi.
  destruct (Currency.label (currency captured)); [|congruence].
  split; [reflexivity | simpl; auto].
Qed.

(** C7: the initial state is USD, market_cap_desc, page 1, page size 10; the
    first render issues exactly one request, whose URL carries the currency
    code, the sort key, the page size, the page number and the sparkline
    flag; when it resolves, the coin collection is the response, in its
    order, and no further request is made. *)
Theorem initial_load_request :
  Currency.label (currency initialState) = Some "USD"
  /\ SortOrder.key (sortOrder initialState) = "market_cap_desc"
  /\ Pagination.current (pagination initialState) = 1%Z
  /\ Pagination.pageSize (pagination initialState) = 10%Z
  /\ requests (snd mount)
     = ["https://api.coingecko.com/api/v3/coins/markets?vs_currency=usd&order=market_cap_desc&per_page=10&page=1&sparkline=true"]
  /\ inflight (fst mount) = [initialState]
  /\ (forall D : list CoinType,
        data (ui (fst (step (fst mount) (FetchSettled 0 (Resolved D))))) = D
        /\ dataSource (ui (fst (step (fst mount) (FetchSettled 0 (Resolved D)))))
           = D
        /\ requests (snd (step (fst mount) (FetchSettled 0 (Resolved D)))) = []
        /\ inflight (fst (step (fst mount) (FetchSettled 0 (Resolved D)))) = []).
Proof.
  repeat split; reflexivity.
Qed.

(** ** The empty query *)

Lemma search_input_rendered (w : World) (q : string) :
  filterQuery (rendered w (SearchInput q)) = q
  /\ data (rendered w (SearchInput q)) = data (ui w).
Proof. split; reflexivity. Qed.

(** C6: with the empty query the table shows the fetched collection itself,
    and the filter stage stores nothing; a step that ends with the empty
    query leaves the stored filtered set as it was, and whenever a step calls
    [setFilteredData] the query is not empty and the value is the filter of
    the data by it; so, in a reachable state
    with data D, typing a non-empty [q] shows the filter of D by [q], and
    clearing the box shows D again while the stored filtered set is still the
    filter by [q]. *)
Theorem empty_query_shows_fetched_data :
  (forall st : State,
      filterQuery st = "" ->
      dataSource st = data st
      /\ calls_of (filterEffect st) = []
      /\ filter_stage_output st = filteredData st)
  /\ (forall (w : World) (ev : Event),
        filterQuery (ui (fst (step w ev))) = "" ->
        filteredData (ui (fst (step w ev))) = filteredData (ui w))
  /\ (forall (w : World) (ev : Event) (x : list CoinType),
        In (SetFilteredData x) (snd (step w ev)) ->
        filterQuery (ui (fst (step w ev))) <> ""
        /\ x = filter (matches (filterQuery (ui (fst (step w ev)))))
                 (data (ui (fst (step w ev)))))
  /\ (forall (w : World) (q : string),
        reachable w ->
        q <> "" ->
        dataSource (ui (fst (step w (SearchInput q))))
        = filter (matches q) (data (ui w))
        /\ dataSource
             (ui (fst (step (fst (step w (SearchInput q))) (SearchInput ""))))
           = data (ui w)
        /\ filteredData
             (ui (fst (step (fst (step w (SearchInput q))) (SearchInput ""))))
           = filter (matches q) (data (ui w))).
Proof.
  assert (Hkeep : forall w ev,
             filterQuery (ui (fst (step w ev))) = "" ->
             filteredData (ui (fst (step w ev))) = filteredData (ui w)).
  { intros w ev Hq. rewrite filterQuery_step in Hq.
    rewrite filteredData_step, Hq. simpl. now rewrite andb_false_r. }
  split; [|split; [exact Hkeep|split]].
  - intros st Hq. rewrite filter_stage_output_spec, calls_filterEffect.
    unfold dataSource. rewrite Hq. auto.
  - intros w ev x Hin. rewrite filterQuery_step, data_step.
    unfold step in Hin. cbn [snd] in Hin.
    apply in_app_or in Hin. destruct Hin as [Hin | Hin].
    + pose proof (handler_keeps_filteredData w ev) as Hall.
      rewrite Forall_forall in Hall. now elim (Hall _ Hin).
    + unfold effects_of in Hin. rewrite effects_calls in Hin.
      apply in_app_or in Hin. destruct Hin as [Hin | Hin].
      * destruct (fetch_deps_changed _); [|contradiction].
        rewrite calls_fetchEffect in Hin.
        destruct (Currency.label (currency (rendered w ev)));
          simpl in Hin; intuition discriminate.
      * destruct (filter_deps_changed _ _ _); [|contradiction].
        rewrite calls_filterEffect in Hin.
        destruct (JS.truthy (filterQuery (rendered w ev))) eqn:Hq;
          [|contradiction].
        destruct Hin as [Hin | []]. injection Hin as <-.
        split; [now apply truthy_iff | reflexivity].
  - intros w q Hw Hq.
    set (w1 := fst (step w (SearchInput q))).
    assert (Hq1 : filterQuery (ui w1) = q).
    { subst w1. now rewrite filterQuery_step. }
    assert (Hd1 : data (ui w1) = data (ui w)).
    { subst w1. now rewrite data_step. }
    assert (Hf1 : filteredData (ui w1) = filter (matches q) (data (ui w))).
    { rewrite <- Hd1, <- Hq1.
      apply view_in_sync_reachable.
      - subst w1. now apply reachable_step.
      - apply truthy_iff. now rewrite Hq1. }
    assert (Ht : JS.truthy q = true) by now apply truthy_iff.
    split; [|split].
    + unfold dataSource. now rewrite Hq1, Ht.
    + unfold dataSource. rewrite filterQuery_step, data_step. simpl.
      exact Hd1.
    + rewrite Hkeep; [exact Hf1|]. now rewrite filterQuery_step.
Qed.

Lemma empty_query_shows_fetched_data_witness :
  reachable (loaded sample_coins)
  /\ "bit" <> ""
  /\ map name
       (dataSource (ui (fst (step (loaded sample_coins) (SearchInput "bit")))))
     = ["Bitcoin"; "Bitcoin Cash"]
  /\ dataSource
       (ui (fst (step (fst (step (loaded sample_coins) (SearchInput "bit")))
                   (SearchInput ""))))
     = sample_coins
  /\ map name
       (filteredData
          (ui (fst (step (fst (step (loaded sample_coins) (SearchInput "bit")))
                      (SearchInput "")))))
     = ["Bitcoin"; "Bitcoin Cash"].
Proof.
  assert (Hq : "bit" <> "") by discriminate.
  destruct (proj2 (proj2 (proj2 empty_query_shows_fetched_data))
              (loaded sample_coins) "bit"
              (reachable_loaded sample_coins) Hq) as (H1 & H2 & H3).
  split; [apply reachable_loaded|]. split; [exact Hq|].
  split; [|split].
  - rewrite H1. reflexivity.
  - rewrite H2. reflexivity.
  - rewrite H3. reflexivity.
Defined.

(** ** Splitting a key on a space *)

Lemma append_nil_r (s : string) : (s ++ "")%string = s.
Proof. induction s as [|c s IH]; simpl; [reflexivity | now rewrite IH]. Qed.

Lemma prefix_nil (s : string) : prefix "" s = true.
Proof. now destruct s. Qed.

Lemma prefix_space (c : ascii) (s : string) :
  prefix " " (String c s) = if ascii_dec " " c then true else false.
Proof.
  cbn [prefix]. destruct (ascii_dec " " c); [apply prefix_nil | reflexivity].
Qed.

(** A string has no space exactly when none of its code units is one. *)
Lemma no_space_cons (c : ascii) (s : string) :
  JS.includes (String c s) " " = false
  <-> c <> " "%char /\ JS.includes s " " = false.
Proof.
  rewrite includes_unfold, prefix_space, orb_false_iff.
  destruct (ascii_dec " " c) as [<- | Hne]; split.
  - intros [H _]. discriminate H.
  - intros [H _]. now elim H.
  - intros [_ H]. split; [congruence | assumption].
  - intros [_ H]. now split.
Qed.

Lemma split_go_nonempty (sep s : string) (skip : nat) (cur : string) :
  JS.split_go sep s skip cur <> [].
Proof.
  revert skip cur. induction s as [|c s IH]; intros skip cur;
    cbn [JS.split_go].
  - discriminate.
  - destruct skip as [|k]; [|apply IH].
    destruct (prefix sep (String c s)); [discriminate | apply IH].
Qed.

(** Up to its first space, a string is one piece. *)
Lemma split_go_to_space (a rest cur : string) :
  JS.includes a " " = false ->
  JS.split_go " " (a ++ String " " rest) 0 cur
  = (cur ++ a)%string :: JS.split_go " " rest 0 "".
Proof.
  revert cur. induction a as [|c a IH]; intros cur Ha.
  - cbn [append JS.split_go]. rewrite prefix_space.
    destruct (ascii_dec " " " ") as [_ | Hne]; [|now elim Hne].
    now rewrite append_nil_r.
  - apply no_space_cons in Ha. destruct Ha as [Hc Ha].
    cbn [append JS.split_go]. rewrite prefix_space.
    destruct (ascii_dec " " c) as [He | _]; [now elim Hc|].
    rewrite (IH _ Ha). now rewrite append_assoc.
Qed.

Lemma split_go_no_space (s cur : string) :
  JS.includes s " " = false ->
  JS.split_go " " s 0 cur = [(cur ++ s)%string].
Proof.
  revert cur. induction s as [|c s IH]; intros cur Hs.
  - simpl. now rewrite append_nil_r.
  - apply no_space_cons in Hs. destruct Hs as [Hc Hs].
    cbn [JS.split_go]. rewrite prefix_space.
    destruct (ascii_dec " " c) as [He | _]; [now elim Hc|].
    rewrite (IH _ Hs). now rewrite append_assoc.
Qed.

Lemma split_first_two (a b rest : string) :
  JS.includes a " " = false ->
  JS.includes b " " = false ->
  JS.at_index (JS.split (a ++ " " ++ b ++ " " ++ rest) " ") 0 = Some a
  /\ JS.at_index (JS.split (a ++ " " ++ b ++ " " ++ rest) " ") 1 = Some b.
Proof.
  intros Ha Hb. unfold JS.split.
  change (a ++ " " ++ b ++ " " ++ rest)%string
    with (a ++ String " " (b ++ String " " rest))%string.
  rewrite (split_go_to_space a _ "" Ha), (split_go_to_space b _ "" Hb).
  split; reflexivity.
Qed.

Lemma split_two (a b : string) :
  JS.includes a " " = false ->
  JS.includes b " " = false ->
  JS.split (a ++ " " ++ b) " " = [a; b].
Proof.
  intros Ha Hb. unfold JS.split.
  change (a ++ " " ++ b)%string with (a ++ String " " b)%string.
  now rewrite (split_go_to_space a _ "" Ha), (split_go_no_space b "" Hb).
Qed.

Lemma split_one (k : string) :
  JS.includes k " " = false -> JS.split k " " = [k].
Proof. intro Hk. unfold JS.split. now rewrite (split_go_no_space k "" Hk). Qed.

(** ** The currency key *)

(** X1: The clicked key comes back as the selected key of the menu: a key made
    of two pieces around one space is taken apart by the handler into label
    and symbol, and [selectedKeys] puts it together again. *)
Theorem currency_key_round_trip (w : World) (a b : string) :
  JS.includes a " " = false ->
  JS.includes b " " = false ->
  currency (ui (fst (step w (CurrencyClick (a ++ " " ++ b)))))
  = Currency.mk (Some a) (Some b)
  /\ selectedCurrencyKey (ui (fst (step w (CurrencyClick (a ++ " " ++ b)))))
     = (a ++ " " ++ b)%string.
Proof.
  intros Ha Hb.
  assert (Hc : currency (ui (fst (step w (CurrencyClick (a ++ " " ++ b)))))
               = Currency.mk (Some a) (Some b)).
  { rewrite currency_step, currency_rendered, (split_two a b Ha Hb).
    reflexivity. }
  split; [exact Hc|].
  unfold selectedCurrencyKey. now rewrite Hc.
Qed.

Lemma currency_key_round_trip_witness :
  JS.includes "EUR" " " = false
  /\ JS.includes "€" " " = false
  /\ selectedCurrencyKey (ui (fst (step (fst mount) (CurrencyClick "EUR €"))))
     = "EUR €".
Proof.
  assert (Ha : JS.includes "EUR" " " = false) by reflexivity.
  assert (Hb : JS.includes "€" " " = false) by reflexivity.
  split; [exact Ha|]. split; [exact Hb|].
  exact (proj2 (currency_key_round_trip (fst mount) "EUR" "€" Ha Hb)).
Defined.

(** ** Requests *)

Lemma commit_sortOrder (calls : list Call) (st : State) :
  Forall (fun c => writes c <> Some SortOrderCell) calls ->
  sortOrder (commit st calls) = sortOrder st.
Proof. apply (commit_frame SortOrderCell _ sortOrder). frame_of_apply. Qed.

Lemma commit_isLoading (calls : list Call) (st : State) :
  Forall (fun c => writes c <> Some IsLoadingCell) calls ->
  isLoading (commit st calls) = isLoading st.
Proof. apply (commit_frame IsLoadingCell _ isLoading). frame_of_apply. Qed.

Lemma sortOrder_step (w : World) (ev : Event) :
  sortOrder (ui (fst (step w ev))) = sortOrder (rendered w ev).
Proof.
  rewrite ui_step. apply commit_sortOrder, effects_keep; discriminate.
Qed.

Lemma requests_app (a b : list Call) :
  requests (a ++ b) = requests a ++ requests b.
Proof. apply flat_map_app. Qed.

Lemma toasts_app (a b : list Call) : toasts (a ++ b) = toasts a ++ toasts b.
Proof. apply flat_map_app. Qed.

(** No handler, and no continuation of the fetch function, issues a
    request: requests come from the fetch effect only. *)
Lemma handler_requests (w : World) (ev : Event) :
  requests (calls_of (handler w ev)) = [].
Proof.
  rewrite calls_handler. destruct ev as [k | k | c s | v | i o]; try reflexivity.
  - rewrite calls_handleSortOrder.
    destruct (k =? "market_cap_desc"); [reflexivity|].
    destruct (k =? "market_cap_asc"); reflexivity.
  - destruct (nth_error (inflight w) i) as [captured|]; [|reflexivity].
    destruct (Currency.label (currency captured)), o; reflexivity.
Qed.

Lemma label_of_split (k : string) : JS.at_index (JS.split k " ") 0 <> None.
Proof.
  unfold JS.split.
  destruct (JS.split_go " " k 0 "") as [|x l] eqn:H; [|discriminate].
  now apply split_go_nonempty in H.
Qed.

(** [split] always gives a first piece, so the currency label is a string in
    every reachable state, whatever keys were clicked. *)
Lemma reachable_label (w : World) :
  reachable w -> Currency.label (currency (ui w)) <> None.
Proof.
  intros [evs ->].
  apply (run_invariant
           (fun w => Currency.label (currency (ui w)) <> None)
           (fun _ => True)).
  - intros w ev _ Hw. rewrite currency_step, currency_rendered.
    destruct ev; try assumption. apply label_of_split.
  - apply Forall_forall. trivial.
  - discriminate.
Qed.

Lemma refetches_changes_deps (w : World) (ev : Event) :
  refetches ev -> fetch_deps_changed (calls_of (handler w ev)) = true.
Proof.
  intro Hev. rewrite calls_handler.
  destruct ev as [k | k | c s | v | i o]; try reflexivity; try contradiction.
  rewrite calls_handleSortOrder.
  destruct (sort_key_cases k Hev) as [-> | ->]; reflexivity.
Qed.

Lemma refetches_toasts (w : World) (ev : Event) :
  refetches ev -> toasts (calls_of (handler w ev)) = [].
Proof.
  intro Hev. rewrite calls_handler.
  destruct ev as [k | k | c s | v | i o]; try reflexivity; try contradiction.
  rewrite calls_handleSortOrder.
  destruct (sort_key_cases k Hev) as [-> | ->]; reflexivity.
Qed.

(** X3: In a reachable state, every currency click, page change and sort click
    on a menu key issues exactly one request, built from the state the
    handler leaves (new page, page size, currency, sort key); it raises no
    toast, turns the loading flag on, and adds one pending request to those
    already in flight, none of which is cancelled.  The same currency or the
    same page clicked again fetches again. *)
Theorem refetch_issues_one_request (w : World) (ev : Event) :
  reachable w ->
  refetches ev ->
  exists l : string,
    Currency.label (currency (ui (fst (step w ev)))) = Some l
    /\ requests (snd (step w ev))
       = [request_template l (ui (fst (step w ev)))]
    /\ toasts (snd (step w ev)) = []
    /\ isLoading (ui (fst (step w ev))) = true
    /\ inflight (fst (step w ev)) = inflight w ++ [rendered w ev].
Proof.
  intros Hw Hev.
  pose proof (reachable_label _ (reachable_step w ev Hw)) as Hl.
  rewrite currency_step in Hl.
  destruct (Currency.label (currency (rendered w ev))) as [l|] eqn:Hlabel;
    [clear Hl | congruence].
  exists l.
  assert (Htemplate : request_template l (ui (fst (step w ev)))
                      = request_template l (rendered w ev)).
  { unfold request_template. now rewrite sortOrder_step, pagination_step. }
  rewrite currency_step, Htemplate.
  unfold step. cbn [fst snd ui inflight].
  unfold effects_of.
  rewrite effects_calls, effects_suspended, (refetches_changes_deps w ev Hev).
  rewrite calls_fetchEffect, calls_filterEffect, Hlabel.
  rewrite !requests_app, !toasts_app, handler_requests,
    (refetches_toasts w ev Hev), commit_app.
  set (G := if filter_deps_changed _ _ _ then _ else _).
  assert (HG : G = [] \/ exists x, G = [SetFilteredData x]).
  { subst G. destruct (filter_deps_changed _ _ _); [|now left].
    destruct (JS.truthy _); [right; eauto | now left]. }
  repeat split.
  - destruct HG as [-> | [x ->]]; reflexivity.
  - destruct HG as [-> | [x ->]]; reflexivity.
  - destruct HG as [-> | [x ->]]; reflexivity.
  - f_equal. destruct ev; try reflexivity; contradiction.
Qed.

Lemma refetch_issues_one_request_witness :
  reachable (loaded sample_coins)
  /\ refetches (PageChange 3 25)
  /\ requests (snd (step (loaded sample_coins) (PageChange 3 25)))
     = ["https://api.coingecko.com/api/v3/coins/markets?vs_currency=usd&order=market_cap_desc&per_page=25&page=3&sparkline=true"].
Proof.
  assert (Hev : refetches (PageChange 3 25)) by exact I.
  split; [apply reachable_loaded|]. split; [exact Hev|].
  destruct (refetch_issues_one_request (loaded sample_coins) (PageChange 3 25)
              (reachable_loaded sample_coins) Hev) as (l & Hl & Hreq & _).
  rewrite Hreq. injection Hl as <-. reflexivity.
Defined.

(** ** The sort order *)

Lemma sortOrder_rendered (w : World) (ev : Event) :
  sortOrder (rendered w ev)
  = match ev with
    | SortOrderClick k =>
        if k =? "market_cap_desc"
        then SortOrder.mk "Market Cap Decending" "market_cap_desc"
        else if k =? "market_cap_asc"
             then SortOrder.mk "Market Cap Ascending" "market_cap_asc"
             else sortOrder (ui w)
    | _ => sortOrder (ui w)
    end.
Proof.
  unfold rendered. rewrite calls_handler.
  destruct ev as [k | k | c s | v | i o]; try reflexivity.
  - rewrite calls_handleSortOrder.
    destruct (k =? "market_cap_desc"); [reflexivity|].
    destruct (k =? "market_cap_asc"); reflexivity.
  - destruct (nth_error (inflight w) i) as [captured|]; [|reflexivity].
    destruct (Currency.label (currency captured)), o; reflexivity.
Qed.

(** X4: Whatever keys are clicked, the sort order is always one of the two items
    of the sort menu, key and label together: the button text and the
    [order] parameter of a request never disagree. *)
Theorem sortOrder_is_a_menu_item (evs : list Event) :
  In (mkItem (SortOrder.key (sortOrder (ui (run (fst mount) evs))))
             (SortOrder.label (sortOrder (ui (run (fst mount) evs)))))
     sortOrderItems.
Proof.
  apply (run_invariant
           (fun w => In (mkItem (SortOrder.key (sortOrder (ui w)))
                                (SortOrder.label (sortOrder (ui w))))
                        sortOrderItems)
           (fun _ => True)).
  - intros w ev _ Hw. rewrite sortOrder_step, sortOrder_rendered.
    destruct ev as [k | k | c s | v | i o]; try assumption.
    destruct (k =? "market_cap_desc"); [simpl; auto|].
    destruct (k =? "market_cap_asc"); [simpl; auto | assumption].
  - apply Forall_forall. trivial.
  - simpl. auto.
Qed.

(** X5: A sort click whose key is not in the sort menu does nothing at all: no
    setter is called, no request is issued, and the state and the pending
    requests are what they were. *)
Theorem off_menu_sort_key_does_nothing (w : World) (k : string) :
  ~ In k (map item_key sortOrderItems) ->
  step w (SortOrderClick k) = (w, []).
Proof.
  intro Hk.
  assert (H1 : (k =? "market_cap_desc") = false).
  { apply String.eqb_neq. intros ->. apply Hk. simpl. auto. }
  assert (H2 : (k =? "market_cap_asc") = false).
  { apply String.eqb_neq. intros ->. apply Hk. simpl. auto. }
  assert (Hc : calls_of (handler w (SortOrderClick k)) = []).
  { rewrite calls_handler, calls_handleSortOrder. now rewrite H1, H2. }
  assert (He : effects_of w (SortOrderClick k) = ([], [])).
  { unfold effects_of, rendered. rewrite Hc. cbn [commit fold_left].
    unfold filter_deps_changed. rewrite String.eqb_refl. reflexivity. }
  unfold step, rendered. rewrite He, Hc. cbn [fst snd still_inflight].
  rewrite app_nil_r. now destruct w.
Qed.

Lemma off_menu_sort_key_does_nothing_witness :
  ~ In "volume_desc" (map item_key sortOrderItems)
  /\ step (loaded sample_coins) (SortOrderClick "volume_desc")
     = (loaded sample_coins, []).
Proof.
  assert (Hk : ~ In "volume_desc" (map item_key sortOrderItems)).
  { simpl. intros [H | [H | []]]; discriminate H. }
  split; [exact Hk|].
  exact (off_menu_sort_key_does_nothing (loaded sample_coins) "volume_desc" Hk).
Defined.

(** ** Pagination *)

Lemma pagination_rendered (w : World) (ev : Event) :
  pagination (rendered w ev)
  = match ev with
    | CurrencyClick _ => with_current (pagination (ui w)) 1
    | SortOrderClick k =>
        if (k =? "market_cap_desc") || (k =? "market_cap_asc")
        then with_current (pagination (ui w)) 1
        else pagination (ui w)
    | PageChange c s =>
        Pagination.mk (Pagination.totalCount (pagination (ui w))) s c
    | _ => pagination (ui w)
    end.
Proof.
  unfold rendered. rewrite calls_handler.
  destruct ev as [k | k | c s | v | i o]; try reflexivity.
  - rewrite calls_handleSortOrder.
    destruct (k =? "market_cap_desc"); [reflexivity|].
    destruct (k =? "market_cap_asc"); reflexivity.
  - destruct (nth_error (inflight w) i) as [captured|]; [|reflexivity].
    destruct (Currency.label (currency captured)), o; reflexivity.
Qed.

(** The page size is changed by the pager only. *)
Lemma page_size_changes_by_pager_only (w : World) (ev : Event) :
  Pagination.pageSize (pagination (ui (fst (step w ev))))
  = match ev with
    | PageChange _ s => s
    | _ => Pagination.pageSize (pagination (ui w))
    end.
Proof.
  rewrite pagination_step, pagination_rendered.
  destruct ev as [k | k | c s | v | i o]; try reflexivity.
  now destruct ((k =? "market_cap_desc") || (k =? "market_cap_asc")).
Qed.

(** ** The search query *)

Lemma filterQuery_rendered (w : World) (ev : Event) :
  filterQuery (rendered w ev)
  = match ev with
    | SearchInput v => v
    | _ => filterQuery (ui w)
    end.
Proof.
  unfold rendered. rewrite calls_handler.
  destruct ev as [k | k | c s | v | i o]; try reflexivity.
  - rewrite calls_handleSortOrder.
    destruct (k =? "market_cap_desc"); [reflexivity|].
    destruct (k =? "market_cap_asc"); reflexivity.
  - destruct (nth_error (inflight w) i) as [captured|]; [|reflexivity].
    destruct (Currency.label (currency captured)), o; reflexivity.
Qed.

(** Only typing changes the query. *)
Lemma query_changes_by_typing_only (w : World) (ev : Event) :
  filterQuery (ui (fst (step w ev)))
  = match ev with
    | SearchInput v => v
    | _ => filterQuery (ui w)
    end.
Proof. now rewrite filterQuery_step, filterQuery_rendered. Qed.

Lemma filter_matches_empty (D : list CoinType) : filter (matches "") D = D.
Proof.
  induction D as [|c D IH]; simpl; [reflexivity|].
  now rewrite matches_empty_query, IH.
Qed.

(** What a reachable state shows: the filter of the data by the query, the
    empty query filtering nothing out. *)
Lemma dataSource_reachable (w : World) :
  reachable w ->
  dataSource (ui w) = filter (matches (filterQuery (ui w))) (data (ui w)).
Proof.
  intro Hw. unfold dataSource.
  destruct (JS.truthy (filterQuery (ui w))) eqn:Hq.
  - now apply view_in_sync_reachable.
  - apply truthy_empty in Hq. rewrite Hq. symmetry. apply filter_matches_empty.
Qed.

Lemma dataSource_after_typing (w : World) (v : string) :
  reachable w ->
  dataSource (ui (fst (step w (SearchInput v))))
  = filter (matches v) (data (ui w)).
Proof.
  intro Hw.
  rewrite (dataSource_reachable _ (reachable_step w (SearchInput v) Hw)).
  now rewrite filterQuery_step, data_step.
Qed.

(** X6: Typing is local: it issues no request and raises no toast, leaves the
    data, the selections, the pagination, the loading flag and the pending
    requests as they are, and in a reachable state the table then shows the
    filter of the rows already fetched (the current page) by the typed
    text. *)
Theorem typing_is_local :
  (forall (w : World) (v : string),
      requests (snd (step w (SearchInput v))) = []
      /\ toasts (snd (step w (SearchInput v))) = []
      /\ data (ui (fst (step w (SearchInput v)))) = data (ui w)
      /\ currency (ui (fst (step w (SearchInput v)))) = currency (ui w)
      /\ sortOrder (ui (fst (step w (SearchInput v)))) = sortOrder (ui w)
      /\ pagination (ui (fst (step w (SearchInput v)))) = pagination (ui w)
      /\ isLoading (ui (fst (step w (SearchInput v)))) = isLoading (ui w)
      /\ inflight (fst (step w (SearchInput v))) = inflight w)
  /\ (forall (w : World) (v : string),
        reachable w ->
        dataSource (ui (fst (step w (SearchInput v))))
        = filter (matches v) (data (ui w))).
Proof.
  split.
  - intros w v.
    assert (Hcalls : fst (effects_of w (SearchInput v))
                     = calls_of
                         (if filter_deps_changed (ui w)
                               (rendered w (SearchInput v)) [SetFilterQuery v]
                          then filterEffect (rendered w (SearchInput v))
                          else Ret tt)
                     /\ snd (effects_of w (SearchInput v)) = []).
    { unfold effects_of. rewrite effects_calls, effects_suspended.
      change (calls_of (handler w (SearchInput v))) with [SetFilterQuery v].
      split; [|reflexivity].
      now destruct (filter_deps_changed _ _ _). }
    destruct Hcalls as [Hcalls Hsusp].
    assert (Hshape : fst (effects_of w (SearchInput v)) = []
                     \/ exists x, fst (effects_of w (SearchInput v))
                                  = [SetFilteredData x]).
    { rewrite Hcalls. destruct (filter_deps_changed _ _ _); [|now left].
      rewrite calls_filterEffect.
      destruct (JS.truthy _); [right; eauto | now left]. }
    rewrite data_step, currency_step, sortOrder_step, pagination_step.
    unfold step. cbn [fst snd ui inflight still_inflight].
    rewrite Hsusp, app_nil_r.
    change (calls_of (handler w (SearchInput v))) with [SetFilterQuery v].
    destruct Hshape as [-> | [x ->]]; repeat split; reflexivity.
  - exact dataSource_after_typing.
Qed.

Lemma typing_is_local_witness :
  reachable (loaded sample_coins)
  /\ map name (dataSource (ui (fst (step (loaded sample_coins)
                                      (SearchInput "COIN")))))
     = ["Bitcoin"; "Bitcoin Cash"].
Proof.
  split; [apply reachable_loaded|].
  rewrite (proj2 typing_is_local (loaded sample_coins) "COIN"
             (reachable_loaded sample_coins)).
  reflexivity.
Defined.

(** ** What was chosen stays chosen *)

Lemma run_keeps {X : Type} (f : State -> X) (other : Event -> bool) :
  (forall w ev, other ev = true -> f (ui (fst (step w ev))) = f (ui w)) ->
  forall evs w,
    forallb other evs = true -> f (ui (run w evs)) = f (ui w).
Proof.
  intros Hstep evs. induction evs as [|ev evs IH]; intros w Hevs;
    [reflexivity|].
  simpl in Hevs. apply andb_true_iff in Hevs. destruct Hevs as [Hev Hevs].
  simpl. rewrite (IH _ Hevs). now apply Hstep.
Qed.

(** X7: A choice holds until the same control is used again, whatever
    happens in between, responses and failures included: the page size of
    the last page change, the text last typed, the currency of the last
    currency click and the sort order of the last sort click on a menu key
    are still in the state after any further events from the other
    controls and from the network. *)
Theorem choices_persist :
  (forall (w : World) (before after : list Event) (c s : Z),
      forallb (fun ev => negb (is_page_change ev)) after = true ->
      Pagination.pageSize
        (pagination (ui (run w (before ++ PageChange c s :: after)))) = s)
  /\ (forall (w : World) (before after : list Event) (v : string),
        forallb (fun ev => negb (is_typing ev)) after = true ->
        filterQuery (ui (run w (before ++ SearchInput v :: after))) = v)
  /\ (forall (w : World) (before after : list Event) (k : string),
        forallb (fun ev => negb (is_currency_click ev)) after = true ->
        currency (ui (run w (before ++ CurrencyClick k :: after)))
        = Currency.mk (JS.at_index (JS.split k " ") 0)
                      (JS.at_index (JS.split k " ") 1))
  /\ (forall (w : World) (before after : list Event) (item : MenuItem),
        In item sortOrderItems ->
        forallb (fun ev => negb (is_sort_click ev)) after = true ->
        sortOrder
          (ui (run w (before ++ SortOrderClick (item_key item) :: after)))
        = SortOrder.mk (item_label item) (item_key item)).
Proof.
  split; [|split; [|split]].
  - intros w before after c s Hafter. rewrite run_app. cbn [run].
    rewrite (run_keeps (fun st => Pagination.pageSize (pagination st))
               (fun ev => negb (is_page_change ev))); [|  |assumption].
    + now rewrite page_size_changes_by_pager_only.
    + intros w' ev Hev. rewrite page_size_changes_by_pager_only.
      now destruct ev.
  - intros w before after v Hafter. rewrite run_app. cbn [run].
    rewrite (run_keeps filterQuery (fun ev => negb (is_typing ev)));
      [| |assumption].
    + now rewrite query_changes_by_typing_only.
    + intros w' ev Hev. rewrite query_changes_by_typing_only.
      now destruct ev.
  - intros w before after k Hafter. rewrite run_app. cbn [run].
    rewrite (run_keeps currency (fun ev => negb (is_currency_click ev)));
      [| |assumption].
    + now rewrite currency_step, currency_rendered.
    + intros w' ev Hev. rewrite currency_step, currency_rendered.
      now destruct ev.
  - intros w before after item Hitem Hafter. rewrite run_app. cbn [run].
    rewrite (run_keeps sortOrder (fun ev => negb (is_sort_click ev)));
      [| |assumption].
    + rewrite sortOrder_step, sortOrder_rendered.
      simpl in Hitem. destruct Hitem as [<- | [<- | []]]; reflexivity.
    + intros w' ev Hev. rewrite sortOrder_step, sortOrder_rendered.
      now destruct ev.
Qed.

Lemma choices_persist_witness :
  forallb (fun ev => negb (is_typing ev))
    [PageChange 2 25; FetchSettled 0 Rejected; CurrencyClick "EUR €"] = true
  /\ filterQuery
       (ui (run (loaded sample_coins)
              ([SortOrderClick "market_cap_asc"]
               ++ SearchInput "bit"
                  :: [PageChange 2 25; FetchSettled 0 Rejected;
                      CurrencyClick "EUR €"]))) = "bit".
Proof.
  assert (H : forallb (fun ev => negb (is_typing ev))
                [PageChange 2 25; FetchSettled 0 Rejected;
                 CurrencyClick "EUR €"] = true) by reflexivity.
  split; [exact H|].
  exact (proj1 (proj2 choices_persist) (loaded sample_coins)
           [SortOrderClick "market_cap_asc"] _ "bit" H).
Defined.

(** ** Toasts and the loading flag *)

Lemma remove_nth_out_of_range {A : Type} (i : nat) (l : list A) :
  nth_error l i = None -> remove_nth i l = l.
Proof.
  revert i. induction l as [|x l IH]; intros i H.
  - now destruct i.
  - destruct i as [|i]; simpl in *; [discriminate | now rewrite IH].
Qed.

Lemma length_remove_nth {A : Type} (i : nat) (l : list A) :
  i < List.length l -> S (List.length (remove_nth i l)) = List.length l.
Proof.
  revert i. induction l as [|x l IH]; intros i H; simpl in *; [lia|].
  destruct i as [|i]; simpl; [reflexivity|]. rewrite IH; [reflexivity | lia].
Qed.

(** What a settled request calls in a reachable state. *)
Lemma settled_calls (w : World) (i : nat) (o : Outcome) :
  reachable w ->
  calls_of (handler w (FetchSettled i o))
  = if Nat.ltb i (List.length (inflight w))
    then match o with
         | Resolved d => [SetData d; SetIsLoading false]
         | Rejected => [ToastError failure_message; SetIsLoading false]
         end
    else [].
Proof.
  intro Hw. rewrite calls_handler.
  destruct (Nat.ltb_spec i (List.length (inflight w))) as [Hi | Hi].
  - destruct (nth_error (inflight w) i) as [captured|] eqn:Hnth;
      [|apply nth_error_None in Hnth; lia].
    pose proof (inflight_have_label w Hw) as Hall.
    rewrite Forall_forall in Hall.
    specialize (Hall captured (nth_error_In _ _ Hnth)).
    destruct (Currency.label (currency captured)); [reflexivity | congruence].
  - apply nth_error_None in Hi. now rewrite Hi.
Qed.

Lemma effects_toasts (st : State) (run_fetch run_filter : bool) :
  Currency.label (currency st) <> None ->
  toasts (fst (effects st run_fetch run_filter)) = [].
Proof.
  intro Hl. rewrite effects_calls, calls_fetchEffect, calls_filterEffect.
  destruct (Currency.label (currency st)); [|congruence].
  destruct run_fetch, run_filter, (JS.truthy (filterQuery st)); reflexivity.
Qed.

(** X8: The error toast is raised when a pending request is rejected, once, and
    at no other moment: not on a resolved request, not on a click, not on
    typing, and not for an index that names no pending request. *)
Theorem toast_only_on_rejection (w : World) (ev : Event) :
  reachable w ->
  toasts (snd (step w ev))
  = match ev with
    | FetchSettled i Rejected =>
        if Nat.ltb i (List.length (inflight w)) then [failure_message] else []
    | _ => []
    end.
Proof.
  intro Hw. unfold step. cbn [snd]. rewrite toasts_app.
  unfold effects_of. rewrite effects_toasts.
  - rewrite app_nil_r.
    destruct ev as [k | k | c s | v | i o]; try reflexivity.
    + rewrite calls_handler, calls_handleSortOrder.
      destruct (k =? "market_cap_desc"); [reflexivity|].
      destruct (k =? "market_cap_asc"); reflexivity.
    + rewrite (settled_calls w i o Hw).
      destruct (Nat.ltb i (List.length (inflight w))), o; reflexivity.
  - rewrite <- currency_step.
    apply reachable_label. now apply reachable_step.
Qed.

Lemma toast_only_on_rejection_witness :
  reachable (fst mount)
  /\ toasts (snd (step (fst mount) (FetchSettled 0 Rejected)))
     = ["Failed to fetch data, try again later"]
  /\ toasts (snd (step (fst mount) (FetchSettled 0 (Resolved sample_coins))))
     = [].
Proof.
  assert (Hr : reachable (fst mount)) by now exists [].
  split; [exact Hr|]. split.
  - rewrite (toast_only_on_rejection (fst mount) (FetchSettled 0 Rejected) Hr).
    reflexivity.
  - reflexivity.
Defined.

Lemma isLoading_step_no_fetch (w : World) (ev : Event) :
  fetch_deps_changed (calls_of (handler w ev)) = false ->
  isLoading (ui (fst (step w ev))) = isLoading (rendered w ev)
  /\ inflight (fst (step w ev)) = still_inflight w ev.
Proof.
  intro Hdeps. unfold step. cbn [fst ui inflight]. unfold effects_of.
  rewrite effects_calls, effects_suspended, Hdeps, app_nil_r. split; [|reflexivity].
  apply commit_isLoading. cbn [app].
  destruct (filter_deps_changed _ _ _); [|constructor].
  rewrite calls_filterEffect.
  destruct (JS.truthy _); repeat constructor; discriminate.
Qed.

Lemma isLoading_ui_handler (w : World) (ev : Event) :
  (forall i o, ev <> FetchSettled i o) ->
  isLoading (rendered w ev) = isLoading (ui w).
Proof.
  intro Hev. unfold rendered. rewrite calls_handler.
  destruct ev as [k | k | c s | v | i o]; try reflexivity.
  - rewrite calls_handleSortOrder.
    destruct (k =? "market_cap_desc"); [reflexivity|].
    destruct (k =? "market_cap_asc"); reflexivity.
  - now elim (Hev i o).
Qed.

Lemma loading_invariant_step (w : World) (ev : Event) :
  reachable w ->
  (inflight w = [] -> isLoading (ui w) = false) ->
  inflight (fst (step w ev)) = [] ->
  isLoading (ui (fst (step w ev))) = false.
Proof.
  intros Hw IH Hempty.
  destruct (fetch_deps_changed (calls_of (handler w ev))) eqn:Hdeps.
  - exfalso. revert Hempty. unfold step. cbn [fst inflight]. unfold effects_of.
    rewrite effects_suspended, Hdeps.
    pose proof (reachable_label _ (reachable_step w ev Hw)) as Hl.
    rewrite currency_step in Hl.
    destruct (Currency.label (currency (rendered w ev))); [|congruence].
    intro H. apply app_eq_nil in H. destruct H as [_ H]. discriminate H.
  - destruct (isLoading_step_no_fetch w ev Hdeps) as [Hload Hinfl].
    rewrite Hload. rewrite Hinfl in Hempty.
    destruct ev as [k | k | c s | v | i o];
      try (rewrite isLoading_ui_handler; [now apply IH | discriminate]).
    cbn [still_inflight] in Hempty. unfold rendered.
    rewrite (settled_calls w i o Hw).
    destruct (Nat.ltb_spec i (List.length (inflight w))) as [Hi | Hi].
    + destruct o; reflexivity.
    + apply nth_error_None in Hi.
      rewrite (remove_nth_out_of_range _ _ Hi) in Hempty. now apply IH.
Qed.

(** X9: The loading flag and the pending requests.  In every reachable state
    with no request pending the flag is off: the spinner never outlives the
    requests.  The converse fails: when one of several pending requests
    settles, the flag goes off although the others are still pending. *)
Theorem loading_flag_and_pending_requests :
  (forall w : World,
      reachable w -> inflight w = [] -> isLoading (ui w) = false)
  /\ (forall (w : World) (i : nat) (o : Outcome),
        reachable w ->
        i < List.length (inflight w) ->
        2 <= List.length (inflight w) ->
        isLoading (ui (fst (step w (FetchSettled i o)))) = false
        /\ inflight (fst (step w (FetchSettled i o))) <> []).
Proof.
  split.
  - intros w [evs ->].
    apply (run_invariant
             (fun w => reachable w
                       /\ (inflight w = [] -> isLoading (ui w) = false))
             (fun _ => True)).
    + intros w ev _ [Hw IH]. split; [now apply reachable_step|].
      now apply loading_invariant_step.
    + apply Forall_forall. trivial.
    + split; [now exists [] | discriminate].
  - intros w i o Hw Hi Htwo.
    assert (Hdeps : fetch_deps_changed
                      (calls_of (handler w (FetchSettled i o))) = false).
    { rewrite (settled_calls w i o Hw).
      destruct (Nat.ltb i (List.length (inflight w))), o; reflexivity. }
    destruct (isLoading_step_no_fetch _ _ Hdeps) as [-> ->].
    split.
    + unfold rendered. rewrite (settled_calls w i o Hw).
      apply Nat.ltb_lt in Hi. rewrite Hi. now destruct o.
    + cbn [still_inflight]. intro Hnil.
      pose proof (length_remove_nth i (inflight w) Hi) as Hlen.
      rewrite Hnil in Hlen. simpl in Hlen. lia.
Qed.

Lemma loading_flag_and_pending_requests_witness :
  reachable (fst (step (fst mount) (PageChange 2 10)))
  /\ 2 <= List.length (inflight (fst (step (fst mount) (PageChange 2 10))))
  /\ isLoading
       (ui (fst (step (fst (step (fst mount) (PageChange 2 10)))
                   (FetchSettled 0 Rejected)))) = false
  /\ inflight (fst (step (fst (step (fst mount) (PageChange 2 10)))
                     (FetchSettled 0 Rejected))) <> []
  /\ isLoading (ui (loaded sample_coins)) = false.
Proof.
  assert (Hr : reachable (fst (step (fst mount) (PageChange 2 10))))
    by now exists [PageChange 2 10].
  assert (H2 : 2 <= List.length
                      (inflight (fst (step (fst mount) (PageChange 2 10)))))
    by (simpl; lia).
  assert (H0 : 0 < List.length
                     (inflight (fst (step (fst mount) (PageChange 2 10)))))
    by (simpl; lia).
  destruct loading_flag_and_pending_requests as [Hinv Hhaz].
  destruct (Hhaz _ 0 Rejected Hr H0 H2) as [Hoff Hpend].
  split; [exact Hr|]. split; [exact H2|]. split; [exact Hoff|].
  split; [exact Hpend|].
  exact (Hinv (loaded sample_coins) (reachable_loaded sample_coins) eq_refl).
Defined.

(** ** Responses *)

(** X10: Whichever pending request resolves, the first or a later one, its
    response replaces the data as a whole; the table at once shows the
    filter of the response by the query typed so far; the loading flag is
    turned off, no request and no toast follow, and exactly that request
    leaves the pending ones.  So of two overlapping requests the one that
    resolves last decides the data. *)
Theorem any_resolved_response_wins (w : World) (i : nat) (D : list CoinType) :
  reachable w ->
  i < List.length (inflight w) ->
  data (ui (fst (step w (FetchSettled i (Resolved D))))) = D
  /\ dataSource (ui (fst (step w (FetchSettled i (Resolved D)))))
     = filter (matches (filterQuery (ui w))) D
  /\ isLoading (ui (fst (step w (FetchSettled i (Resolved D))))) = false
  /\ requests (snd (step w (FetchSettled i (Resolved D)))) = []
  /\ toasts (snd (step w (FetchSettled i (Resolved D)))) = []
  /\ inflight (fst (step w (FetchSettled i (Resolved D))))
     = remove_nth i (inflight w).
Proof.
  intros Hw Hi.
  assert (Hcalls : calls_of (handler w (FetchSettled i (Resolved D)))
                   = [SetData D; SetIsLoading false]).
  { rewrite (settled_calls w i _ Hw). apply Nat.ltb_lt in Hi. now rewrite Hi. }
  assert (Hdeps : fetch_deps_changed
                    (calls_of (handler w (FetchSettled i (Resolved D)))) = false)
    by now rewrite Hcalls.
  assert (Hdata : data (ui (fst (step w (FetchSettled i (Resolved D))))) = D).
  { rewrite data_step. unfold rendered. now rewrite Hcalls. }
  destruct (isLoading_step_no_fetch _ _ Hdeps) as [Hload Hinfl].
  split; [exact Hdata|]. split; [|split; [|split; [|split]]].
  - rewrite (dataSource_reachable _ (reachable_step w _ Hw)), Hdata.
    now rewrite filterQuery_step, filterQuery_rendered.
  - rewrite Hload. unfold rendered. now rewrite Hcalls.
  - unfold step. cbn [snd]. unfold effects_of.
    rewrite effects_calls, Hdeps, requests_app, handler_requests.
    cbn [app]. destruct (filter_deps_changed _ _ _); [|reflexivity].
    rewrite calls_filterEffect. now destruct (JS.truthy _).
  - unfold step. cbn [snd]. unfold effects_of.
    rewrite toasts_app, Hcalls, effects_toasts; [reflexivity|].
    rewrite <- currency_step. apply reachable_label. now apply reachable_step.
  - exact Hinfl.
Qed.

Lemma any_resolved_response_wins_witness :
  reachable (fst (step (fst mount) (PageChange 2 10)))
  /\ 0 < List.length (inflight (fst (step (fst mount) (PageChange 2 10))))
  /\ data (ui (fst (step (fst (step (fst mount) (PageChange 2 10)))
                     (FetchSettled 0 (Resolved sample_coins)))))
     = sample_coins.
Proof.
  assert (Hr : reachable (fst (step (fst mount) (PageChange 2 10))))
    by now exists [PageChange 2 10].
  assert (H0 : 0 < List.length
                     (inflight (fst (step (fst mount) (PageChange 2 10)))))
    by (simpl; lia).
  split; [exact Hr|]. split; [exact H0|].
  exact (proj1 (any_resolved_response_wins _ 0 sample_coins Hr H0)).
Defined.

(** ** More on the filter by name *)

Lemma matches_query_prefix (q s : string) (coin : CoinType) :
  matches (q ++ s) coin = true -> matches q coin = true.
Proof.
  unfold matches. rewrite toLowerCase_append, !includes_iff.
  intros (pre & post & H).
  exists pre, (JS.toLowerCase s ++ post)%string.
  now rewrite H, append_assoc.
Qed.

Lemma matches_query_suffix (q s : string) (coin : CoinType) :
  matches (s ++ q) coin = true -> matches q coin = true.
Proof.
  unfold matches. rewrite toLowerCase_append, !includes_iff.
  intros (pre & post & H).
  exists (pre ++ JS.toLowerCase s)%string, post.
  now rewrite H, !append_assoc.
Qed.

Lemma filter_narrows {A : Type} (f g : A -> bool) (D : list A) :
  (forall x, f x = true -> g x = true) ->
  filter f (filter g D) = filter f D
  /\ List.length (filter f D) <= List.length (filter g D).
Proof.
  intro Hfg. induction D as [|x D [IH1 IH2]]; simpl; [auto|].
  destruct (g x) eqn:Hg; simpl.
  - destruct (f x); simpl; [rewrite IH1 | ]; split; auto; lia.
  - destruct (f x) eqn:Hf; [apply Hfg in Hf; congruence | auto].
Qed.

(** X11: Typing more never adds rows, for ASCII text over ASCII names: in a
    reachable state, the rows shown for a query extended by more text, at
    its end or at its front, are the rows shown for the shorter query
    filtered once more, so there are no more of them. *)
Theorem typing_more_narrows (w : World) (q s : string) :
  reachable w ->
  is_ascii q = true ->
  is_ascii s = true ->
  ascii_names (data (ui w)) ->
  dataSource (ui (fst (step w (SearchInput (q ++ s)))))
  = filter (matches (q ++ s)) (dataSource (ui (fst (step w (SearchInput q)))))
  /\ dataSource (ui (fst (step w (SearchInput (s ++ q)))))
     = filter (matches (s ++ q))
         (dataSource (ui (fst (step w (SearchInput q)))))
  /\ List.length (dataSource (ui (fst (step w (SearchInput (q ++ s))))))
     <= List.length (dataSource (ui (fst (step w (SearchInput q)))))
  /\ List.length (dataSource (ui (fst (step w (SearchInput (s ++ q))))))
     <= List.length (dataSource (ui (fst (step w (SearchInput q))))).
Proof.
  intros Hw _ _ _. rewrite !(dataSource_after_typing w _ Hw).
  destruct (filter_narrows (matches (q ++ s)) (matches q) (data (ui w))
              (matches_query_prefix q s)) as [H1 H2].
  destruct (filter_narrows (matches (s ++ q)) (matches q) (data (ui w))
              (matches_query_suffix q s)) as [H3 H4].
  rewrite H1, H3. auto.
Qed.

Lemma typing_more_narrows_witness :
  reachable (loaded sample_coins)
  /\ is_ascii "bit" = true
  /\ is_ascii "coin c" = true
  /\ ascii_names (data (ui (loaded sample_coins)))
  /\ map name (dataSource (ui (fst (step (loaded sample_coins)
                                      (SearchInput "bit")))))
     = ["Bitcoin"; "Bitcoin Cash"]
  /\ map name (dataSource (ui (fst (step (loaded sample_coins)
                                      (SearchInput ("bit" ++ "coin c"))))))
     = ["Bitcoin Cash"]
  /\ List.length (dataSource (ui (fst (step (loaded sample_coins)
                                         (SearchInput ("bit" ++ "coin c"))))))
     <= List.length (dataSource (ui (fst (step (loaded sample_coins)
                                            (SearchInput "bit"))))).
Proof.
  assert (Hn : ascii_names (data (ui (loaded sample_coins)))).
  { repeat (apply Forall_cons; [reflexivity|]). apply Forall_nil. }
  destruct (typing_more_narrows (loaded sample_coins) "bit" "coin c"
              (reachable_loaded sample_coins) eq_refl eq_refl Hn)
    as (_ & _ & Hlen & _).
  split; [apply reachable_loaded|].
  split; [reflexivity|]. split; [reflexivity|]. split; [exact Hn|].
  split; [reflexivity|]. split; [reflexivity | exact Hlen].
Defined.

Lemma lower_ascii_idem (c : ascii) :
  JS.lower_ascii (JS.lower_ascii c) = JS.lower_ascii c.
Proof.
  destruct (JS.is_upper c) eqn:Hc.
  - assert (Hl : JS.is_upper (JS.lower_ascii c) = false).
    { apply is_upper_false. rewrite lower_code, Hc.
      apply is_upper_spec in Hc. lia. }
    unfold JS.lower_ascii at 1. now rewrite Hl.
  - unfold JS.lower_ascii. now rewrite Hc, Hc.
Qed.

(** X12: The case of the typed text does not matter: two queries that are the
    same text up to the case of ASCII letters select the same rows, and so
    do a query and its lower-cased form. *)
Theorem query_case_is_ignored :
  (forall (q q' : string) (D : list CoinType),
      same_text q q' -> filter (matches q) D = filter (matches q') D)
  /\ (forall (q : string) (D : list CoinType),
        filter (matches (JS.toLowerCase q)) D = filter (matches q) D)
  /\ (forall (q : string) (a b : CoinType),
        same_text (name a) (name b) -> matches q a = matches q b).
Proof.
  assert (Hq : forall q q' D,
             JS.toLowerCase q = JS.toLowerCase q' ->
             filter (matches q) D = filter (matches q') D).
  { intros q q' D H. apply filter_ext. intro c. unfold matches. now rewrite H. }
  split; [|split].
  - intros q q' D H. apply Hq. now apply toLowerCase_same_text.
  - intros q D. apply Hq.
    induction q as [|c q IH]; simpl; [reflexivity|].
    now rewrite IH, lower_ascii_idem.
  - intros q a b H. apply toLowerCase_same_text in H.
    unfold matches. now rewrite H.
Qed.

Lemma query_case_is_ignored_witness :
  same_text "BiT" "bit"
  /\ map name (filter (matches "BiT") sample_coins)
     = ["Bitcoin"; "Bitcoin Cash"].
Proof.
  assert (H : same_text "BiT" "bit").
  { apply toLowerCase_same_text. reflexivity. }
  split; [exact H|].
  rewrite (proj1 query_case_is_ignored "BiT" "bit" sample_coins H).
  reflexivity.
Defined.

(** ** More on the order of doubles *)

Lemma SFcompare_refl (x : JS.number) :
  SFcompare x x = None \/ SFcompare x x = Some Eq.
Proof.
  pose proof (SFcompare_antisym x x) as H.
  destruct (SFcompare x x) as [[]|]; simpl in H; auto; discriminate H.
Qed.

Lemma gt_irrefl (x : JS.number) : JS.gt x x = false.
Proof.
  rewrite gt_is_SFltb. unfold SFltb.
  now destruct (SFcompare_refl x) as [-> | ->].
Qed.

Lemma SFleb_total (a b : JS.number) :
  is_nan a = false -> is_nan b = false ->
  SFleb a b = true \/ SFleb b a = true.
Proof.
  intros Ha Hb. pose proof (not_gt_is_le a b Ha Hb) as H.
  rewrite gt_is_SFltb in H. unfold SFltb, SFleb in *.
  destruct (SFcompare a b) as [[]|]; auto;
    destruct (SFcompare b a) as [[]|]; auto; discriminate H.
Qed.

Lemma SFleb_not_nan (a b : JS.number) :
  SFleb a b = true -> is_nan a = false /\ is_nan b = false.
Proof. destruct a, b; simpl; auto; discriminate. Qed.

Lemma SFleb_antisym (a b : JS.number) :
  SFleb a b = true -> SFleb b a = true -> SFeqb a b = true.
Proof.
  unfold SFleb, SFeqb. rewrite (SFcompare_antisym a b).
  destruct (SFcompare a b) as [[]|]; simpl; auto.
Qed.

Lemma SFeqb_le (a b : JS.number) :
  SFeqb a b = true -> SFleb a b = true /\ SFleb b a = true.
Proof.
  unfold SFleb, SFeqb. rewrite (SFcompare_antisym a b).
  destruct (SFcompare a b) as [[]|]; simpl; auto; discriminate.
Qed.

Ltac order_cases :=
  repeat match goal with
         | |- context [(?a ?= ?b)%Z] => destruct (Z.compare_spec a b)
         | H : context [(?a ?= ?b)%Z] |- _ => destruct (Z.compare_spec a b)
         | |- context [(?a ?= ?b)%positive] => destruct (Pos.compare_spec a b)
         | H : context [(?a ?= ?b)%positive] |- _ =>
             destruct (Pos.compare_spec a b)
         end.

(** The order of doubles is transitive. *)
Lemma SFleb_trans (a b c : JS.number) :
  SFleb a b = true -> SFleb b c = true -> SFleb a c = true.
Proof.
  unfold SFleb.
  destruct a as [sa | sa | | sa ma ea], b as [sb | sb | | sb mb eb],
    c as [sc | sc | | sc mc ec]; simpl;
    try discriminate; try reflexivity;
    try (destruct sa); try (destruct sb); try (destruct sc);
    simpl; try discriminate; try reflexivity;
    change (Pos.compare_cont Eq ma mb) with (Pos.compare ma mb);
    change (Pos.compare_cont Eq mb mc) with (Pos.compare mb mc);
    change (Pos.compare_cont Eq ma mc) with (Pos.compare ma mc);
    intros H1 H2; order_cases; simpl in *;
    try discriminate; try reflexivity; try lia.
Qed.

(** ** The trend colour of a flat series *)

(** X13: A series whose two reads give the same value is drawn green, whatever
    the value, NaN included: so is every one-point series, where both reads
    are the single element. *)
Theorem equal_endpoints_are_green :
  (forall r : CoinType, first_price r = last_price r -> stroke r = green)
  /\ (forall (r : CoinType) (x : JS.number),
        price (sparkline_in_7d r) = [x] -> stroke r = green).
Proof.
  assert (H : forall r, first_price r = last_price r -> stroke r = green).
  { intros r Heq. apply stroke_green. rewrite Heq. apply gt_irrefl. }
  split; [exact H|].
  intros r x Hx. apply H. unfold first_price, last_price. now rewrite Hx.
Qed.

Lemma equal_endpoints_are_green_witness :
  price (sparkline_in_7d (coin_with_series [n350_5])) = [n350_5]
  /\ stroke (coin_with_series [n350_5]) = green
  /\ stroke (coin_with_series [JS.NaN]) = green.
Proof.
  destruct equal_endpoints_are_green as [_ Hone].
  split; [reflexivity|]. split.
  - exact (Hone (coin_with_series [n350_5]) n350_5 eq_refl).
  - exact (Hone (coin_with_series [JS.NaN]) JS.NaN eq_refl).
Defined.

(** ** The price buckets as a whole *)

(** Each bucket of the menu, by its bounds. *)
Lemma bucket_table (r : CoinType) :
  (onFilter "0 - 100" r = true
   <-> num_le (JS.of_Z 0) (current_price r)
       /\ num_le (current_price r) (JS.of_Z 100))
  /\ (onFilter "100 - 200" r = true
      <-> num_le (JS.of_Z 100) (current_price r)
          /\ num_le (current_price r) (JS.of_Z 200))
  /\ (onFilter "200 - 300" r = true
      <-> num_le (JS.of_Z 200) (current_price r)
          /\ num_le (current_price r) (JS.of_Z 300))
  /\ (onFilter "300 - 400" r = true
      <-> num_le (JS.of_Z 300) (current_price r)
          /\ num_le (current_price r) (JS.of_Z 400))
  /\ (onFilter "400 - 500" r = true
      <-> num_le (JS.of_Z 400) (current_price r)
          /\ num_le (current_price r) (JS.of_Z 500))
  /\ (onFilter "500 - 600" r = true
      <-> num_le (JS.of_Z 500) (current_price r)
          /\ num_le (current_price r) (JS.of_Z 600))
  /\ (onFilter "600 - 700" r = true
      <-> num_le (JS.of_Z 600) (current_price r)
          /\ num_le (current_price r) (JS.of_Z 700))
  /\ (onFilter "700" r = true <-> num_le (JS.of_Z 700) (current_price r)).
Proof.
  split; [exact (onFilter_with_spec JS.StringToNumber "0 - 100" r)|].
  split; [exact (onFilter_with_spec JS.StringToNumber "100 - 200" r)|].
  split; [exact (onFilter_with_spec JS.StringToNumber "200 - 300" r)|].
  split; [exact (onFilter_with_spec JS.StringToNumber "300 - 400" r)|].
  split; [exact (onFilter_with_spec JS.StringToNumber "400 - 500" r)|].
  split; [exact (onFilter_with_spec JS.StringToNumber "500 - 600" r)|].
  split; [exact (onFilter_with_spec JS.StringToNumber "600 - 700" r)|].
  exact (onFilter_with_spec JS.StringToNumber "700" r).
Qed.

Lemma accepting_nonempty (r : CoinType) :
  accepting r <> []
  <-> exists f, In f filters /\ onFilter (value f) r = true.
Proof.
  unfold accepting. split.
  - intro H. destruct (filter _ filters) as [|f l] eqn:Hf; [now elim H|].
    exists f. apply (filter_In (fun f => onFilter (value f) r)).
    rewrite Hf. now left.
  - intros (f & Hin & Hf) Hnil.
    assert (Hmem : In f (filter (fun f => onFilter (value f) r) filters))
      by (apply (filter_In (fun f => onFilter (value f) r)); auto).
    now rewrite Hnil in Hmem.
Qed.

Lemma nonneg_above (lo p : JS.number) :
  SFleb (JS.of_Z 0) lo = true -> num_le lo p -> num_le (JS.of_Z 0) p.
Proof. intros H0 Hlo. exact (SFleb_trans _ _ _ H0 Hlo). Qed.

(** X14: The buckets cover the prices from 0 up and nothing else: a record is
    accepted by some bucket of the menu exactly when its price is ≥ 0, so a
    negative price and a NaN price are in no bucket, and there is no gap
    between 0 and infinity. *)
Theorem buckets_cover_prices_from_zero (r : CoinType) :
  accepting r <> [] <-> num_le (JS.of_Z 0) (current_price r).
Proof.
  rewrite accepting_nonempty.
  destruct (bucket_table r) as (T0 & T1 & T2 & T3 & T4 & T5 & T6 & T7).
  split.
  - intros (f & Hin & Hf). simpl in Hin.
    repeat (destruct Hin as [<- | Hin]; [simpl in Hf|]); [..|contradiction].
    + apply T0 in Hf. tauto.
    + apply T1 in Hf. apply (nonneg_above (JS.of_Z 100)); [reflexivity | tauto].
    + apply T2 in Hf. apply (nonneg_above (JS.of_Z 200)); [reflexivity | tauto].
    + apply T3 in Hf. apply (nonneg_above (JS.of_Z 300)); [reflexivity | tauto].
    + apply T4 in Hf. apply (nonneg_above (JS.of_Z 400)); [reflexivity | tauto].
    + apply T5 in Hf. apply (nonneg_above (JS.of_Z 500)); [reflexivity | tauto].
    + apply T6 in Hf. apply (nonneg_above (JS.of_Z 600)); [reflexivity | tauto].
    + apply T7 in Hf. apply (nonneg_above (JS.of_Z 700)); [reflexivity | tauto].
  - intro H0.
    assert (Hp : is_nan (current_price r) = false)
      by (now destruct (SFleb_not_nan _ _ H0)).
    assert (Hsplit : forall b : Z,
               is_nan (JS.of_Z b) = false ->
               num_le (current_price r) (JS.of_Z b)
               \/ num_le (JS.of_Z b) (current_price r)).
    { intros b Hb. now apply SFleb_total. }
    destruct (Hsplit 100%Z eq_refl) as [H | H100];
      [exists (mkFilter "0 - 100" "0 - 100"); split;
         [simpl; tauto | apply T0; tauto]|].
    destruct (Hsplit 200%Z eq_refl) as [H | H200];
      [exists (mkFilter "100 - 200" "100 - 200"); split;
         [simpl; tauto | apply T1; tauto]|].
    destruct (Hsplit 300%Z eq_refl) as [H | H300];
      [exists (mkFilter "200 - 300" "200 - 300"); split;
         [simpl; tauto | apply T2; tauto]|].
    destruct (Hsplit 400%Z eq_refl) as [H | H400];
      [exists (mkFilter "300 - 400" "300 - 400"); split;
         [simpl; tauto | apply T3; tauto]|].
    destruct (Hsplit 500%Z eq_refl) as [H | H500];
      [exists (mkFilter "400 - 500" "400 - 500"); split;
         [simpl; tauto | apply T4; tauto]|].
    destruct (Hsplit 600%Z eq_refl) as [H | H600];
      [exists (mkFilter "500 - 600" "500 - 600"); split;
         [simpl; tauto | apply T5; tauto]|].
    destruct (Hsplit 700%Z eq_refl) as [H | H700];
      [exists (mkFilter "600 - 700" "600 - 700"); split;
         [simpl; tauto | apply T6; tauto]|].
    exists (mkFilter "> 700" "700"). split; [simpl; tauto | now apply T7].
Qed.

Lemma far_apart (lo hi p : JS.number) :
  num_le lo p -> num_le p hi -> SFleb lo hi = false -> False.
Proof.
  intros Hlo Hhi Hfar. pose proof (SFleb_trans _ _ _ Hlo Hhi) as H. congruence.
Qed.

Ltac far_contra :=
  match goal with
  | Hlo : num_le ?lo ?p, Hhi : num_le ?p ?hi |- _ =>
      exact (far_apart lo hi p Hlo Hhi eq_refl)
  end.

Ltac bounds_of T :=
  try (let H := fresh "Hb" in
       pose proof (proj1 T eq_refl) as H;
       match type of H with
       | _ /\ _ =>
           let Hl := fresh "Hlo" in
           let Hh := fresh "Hhi" in
           destruct H as [Hl Hh]
       | _ => idtac
       end).

(** A price equal to a shared bound is in the two buckets that meet there. *)
Lemma at_shared_bound (r : CoinType) (lo b hi : JS.number) :
  SFeqb (current_price r) b = true ->
  SFleb lo b = true ->
  SFleb b hi = true ->
  (num_le lo (current_price r) /\ num_le (current_price r) b)
  /\ (num_le b (current_price r) /\ num_le (current_price r) hi).
Proof.
  intros Heq Hlo Hhi. apply SFeqb_le in Heq. destruct Heq as [Hpb Hbp].
  unfold num_le. repeat split; try assumption.
  - exact (SFleb_trans _ _ _ Hlo Hbp).
  - exact (SFleb_trans _ _ _ Hpb Hhi).
Qed.

(** X15: The buckets overlap only at their shared bounds: a record is in at most
    two buckets, and in two exactly when its price equals one of 100, 200,
    ..., 700, the buckets being closed at both ends. *)
Theorem buckets_overlap_at_shared_bounds (r : CoinType) :
  List.length (accepting r) <= 2
  /\ (List.length (accepting r) = 2
      <-> exists b : Z,
            In b shared_bounds
            /\ SFeqb (current_price r) (JS.of_Z b) = true).
Proof.
  destruct (bucket_table r) as (T0 & T1 & T2 & T3 & T4 & T5 & T6 & T7).
  assert (Hboth : forall b : Z,
             In b shared_bounds ->
             SFeqb (current_price r) (JS.of_Z b) = true ->
             exists v1 v2,
               onFilter v1 r = true /\ onFilter v2 r = true
               /\ In (b, v1, v2)
                    [ (100, "0 - 100", "100 - 200");
                      (200, "100 - 200", "200 - 300");
                      (300, "200 - 300", "300 - 400");
                      (400, "300 - 400", "400 - 500");
                      (500, "400 - 500", "500 - 600");
                      (600, "500 - 600", "600 - 700");
                      (700, "600 - 700", "700") ]%Z).
  { intros b Hin Heq. simpl in Hin.
    repeat (destruct Hin as [<- | Hin]); [..|contradiction].
    - destruct (at_shared_bound r (JS.of_Z 0) _ (JS.of_Z 200) Heq eq_refl eq_refl).
      exists "0 - 100", "100 - 200".
      split; [now apply T0|]. split; [now apply T1 | simpl; tauto].
    - destruct (at_shared_bound r (JS.of_Z 100) _ (JS.of_Z 300) Heq eq_refl eq_refl).
      exists "100 - 200", "200 - 300".
      split; [now apply T1|]. split; [now apply T2 | simpl; tauto].
    - destruct (at_shared_bound r (JS.of_Z 200) _ (JS.of_Z 400) Heq eq_refl eq_refl).
      exists "200 - 300", "300 - 400".
      split; [now apply T2|]. split; [now apply T3 | simpl; tauto].
    - destruct (at_shared_bound r (JS.of_Z 300) _ (JS.of_Z 500) Heq eq_refl eq_refl).
      exists "300 - 400", "400 - 500".
      split; [now apply T3|]. split; [now apply T4 | simpl; tauto].
    - destruct (at_shared_bound r (JS.of_Z 400) _ (JS.of_Z 600) Heq eq_refl eq_refl).
      exists "400 - 500", "500 - 600".
      split; [now apply T4|]. split; [now apply T5 | simpl; tauto].
    - destruct (at_shared_bound r (JS.of_Z 500) _ (JS.of_Z 700) Heq eq_refl eq_refl).
      exists "500 - 600", "600 - 700".
      split; [now apply T5|]. split; [now apply T6 | simpl; tauto].
    - destruct (at_shared_bound r (JS.of_Z 600) _ (JS.of_Z 800) Heq eq_refl eq_refl)
        as [Hl [Hr _]].
      exists "600 - 700", "700".
      split; [now apply T6|]. split; [now apply T7 | simpl; tauto]. }
  unfold accepting, filters. cbn [filter value].
  destruct (onFilter "0 - 100" r) eqn:B0; bounds_of T0;
  destruct (onFilter "100 - 200" r) eqn:B1; bounds_of T1;
    try (exfalso; far_contra);
  destruct (onFilter "200 - 300" r) eqn:B2; bounds_of T2;
    try (exfalso; far_contra);
  destruct (onFilter "300 - 400" r) eqn:B3; bounds_of T3;
    try (exfalso; far_contra);
  destruct (onFilter "400 - 500" r) eqn:B4; bounds_of T4;
    try (exfalso; far_contra);
  destruct (onFilter "500 - 600" r) eqn:B5; bounds_of T5;
    try (exfalso; far_contra);
  destruct (onFilter "600 - 700" r) eqn:B6; bounds_of T6;
    try (exfalso; far_contra);
  destruct (onFilter "700" r) eqn:B7; bounds_of T7;
    try (exfalso; far_contra);
  (split; [simpl; lia|]);
  (split;
   [ intro Hlen; try discriminate Hlen;
     first
       [ exists 100%Z; split; [simpl; tauto | now apply SFleb_antisym]
       | exists 200%Z; split; [simpl; tauto | now apply SFleb_antisym]
       | exists 300%Z; split; [simpl; tauto | now apply SFleb_antisym]
       | exists 400%Z; split; [simpl; tauto | now apply SFleb_antisym]
       | exists 500%Z; split; [simpl; tauto | now apply SFleb_antisym]
       | exists 600%Z; split; [simpl; tauto | now apply SFleb_antisym]
       | exists 700%Z; split; [simpl; tauto | now apply SFleb_antisym] ]
   | intros (b & Hin & Heq);
     destruct (Hboth b Hin Heq) as (v1 & v2 & H1 & H2 & Htab);
     simpl in Htab;
     repeat (destruct Htab as [Htab | Htab];
             [injection Htab as <- <- <-; try congruence; try reflexivity|]);
     try contradiction ]).
Qed.

(** ** The symbol in the price column *)

Lemma columns_after_no_response (memo : Currency.t) (w : World) (ev : Event) :
  resolves ev = false -> columns_after memo w ev = memo.
Proof.
  intro Hev. unfold columns_after. rewrite calls_handler.
  destruct ev as [k | k | c s | v | i o]; try reflexivity.
  - rewrite calls_handleSortOrder.
    destruct (k =? "market_cap_desc"); [reflexivity|].
    destruct (k =? "market_cap_asc"); reflexivity.
  - destruct o; [discriminate|].
    destruct (nth_error (inflight w) i) as [captured|]; [|reflexivity].
    now destruct (Currency.label (currency captured)).
Qed.

(** X16: The price column prints the symbol of the currency that was selected
    when the data last changed, not of the currency selected now: through
    any run of clicks, page changes, typing and rejected requests the symbol
    stays what it was, and a resolved response makes it the symbol of the
    currency selected at that moment.  So right after a currency click the
    menu shows the new currency while the prices keep the old symbol. *)
Theorem price_symbol_follows_the_data :
  (forall (memo : Currency.t) (w : World) (evs : list Event),
      forallb (fun ev => negb (resolves ev)) evs = true ->
      columns_run memo w evs = memo)
  /\ (forall (memo : Currency.t) (w : World) (i : nat) (D : list CoinType),
        reachable w ->
        i < List.length (inflight w) ->
        columns_after memo w (FetchSettled i (Resolved D)) = currency (ui w))
  /\ (forall (memo : Currency.t) (w : World) (a b : string),
        JS.includes a " " = false ->
        JS.includes b " " = false ->
        price_prefix (columns_after memo w (CurrencyClick (a ++ " " ++ b)))
        = price_prefix memo
        /\ price_prefix
             (currency (ui (fst (step w (CurrencyClick (a ++ " " ++ b))))))
           = b).
Proof.
  split; [|split].
  - intros memo w evs. revert memo w.
    induction evs as [|ev evs IH]; intros memo w Hevs; [reflexivity|].
    simpl in Hevs. apply andb_true_iff in Hevs. destruct Hevs as [Hev Hevs].
    apply negb_true_iff in Hev. simpl.
    rewrite (columns_after_no_response memo w ev Hev). now apply IH.
  - intros memo w i D Hw Hi. unfold columns_after.
    rewrite (settled_calls w i _ Hw). apply Nat.ltb_lt in Hi. rewrite Hi.
    cbn [existsb touches_data orb]. unfold rendered.
    rewrite (settled_calls w i _ Hw), Hi. reflexivity.
  - intros memo w a b Ha Hb. split.
    + now rewrite columns_after_no_response.
    + rewrite currency_step, currency_rendered, (split_two a b Ha Hb).
      reflexivity.
Qed.

Lemma price_symbol_follows_the_data_witness :
  forallb (fun ev => negb (resolves ev))
    [CurrencyClick "EUR €"; FetchSettled 1 Rejected] = true
  /\ price_prefix
       (columns_run (currency initialState) (loaded sample_coins)
          [CurrencyClick "EUR €"; FetchSettled 1 Rejected]) = "$"
  /\ Currency.symbol
       (currency
          (ui (run (loaded sample_coins)
                 [CurrencyClick "EUR €"; FetchSettled 1 Rejected])))
     = Some "€".
Proof.
  assert (H : forallb (fun ev => negb (resolves ev))
                [CurrencyClick "EUR €"; FetchSettled 1 Rejected] = true)
    by reflexivity.
  split; [exact H|]. split; [|reflexivity].
  rewrite (proj1 price_symbol_follows_the_data
             (currency initialState) (loaded sample_coins) _ H).
  reflexivity.
Defined.

(** ** A currency key with a missing or an extra piece *)

Lemma columns_after_response (memo : Currency.t) (w : World) (i : nat)
    (D : list CoinType) :
  reachable w ->
  i < List.length (inflight w) ->
  columns_after memo w (FetchSettled i (Resolved D)) = currency (ui w).
Proof.
  intros Hw Hi. unfold columns_after, rendered.
  rewrite (settled_calls w i _ Hw). apply Nat.ltb_lt in Hi. now rewrite Hi.
Qed.

(** X2: Keys of another shape.  With no space in the key the symbol is
    [undefined] and the selected key ends in the word "undefined", so it is
    not the clicked key; the price column goes on printing the symbol it
    printed before the click, and prints none once a response has resolved.
    With more than one space the pieces after the second are dropped. *)
Theorem currency_key_other_shapes :
  (forall (w : World) (k : string),
      JS.includes k " " = false ->
      currency (ui (fst (step w (CurrencyClick k)))) = Currency.mk (Some k) None
      /\ selectedCurrencyKey (ui (fst (step w (CurrencyClick k))))
         = (k ++ " undefined")%string)
  /\ (forall (memo : Currency.t) (w : World) (k : string),
        JS.includes k " " = false ->
        price_prefix (columns_after memo w (CurrencyClick k))
        = price_prefix memo)
  /\ (forall (memo : Currency.t) (w : World) (k : string) (i : nat)
             (D : list CoinType),
        reachable w ->
        JS.includes k " " = false ->
        i < List.length (inflight (fst (step w (CurrencyClick k)))) ->
        price_prefix
          (columns_after memo (fst (step w (CurrencyClick k)))
             (FetchSettled i (Resolved D))) = "")
  /\ (forall (w : World) (a b rest : string),
        JS.includes a " " = false ->
        JS.includes b " " = false ->
        currency
          (ui (fst (step w (CurrencyClick (a ++ " " ++ b ++ " " ++ rest)))))
        = Currency.mk (Some a) (Some b)).
Proof.
  assert (Hone : forall w k,
             JS.includes k " " = false ->
             currency (ui (fst (step w (CurrencyClick k))))
             = Currency.mk (Some k) None).
  { intros w k Hk.
    rewrite currency_step, currency_rendered, (split_one k Hk). reflexivity. }
  split; [|split; [|split]].
  - intros w k Hk. split; [now apply Hone|].
    unfold selectedCurrencyKey. now rewrite (Hone w k Hk).
  - intros memo w k _. now rewrite columns_after_no_response.
  - intros memo w k i D Hw Hk Hi.
    rewrite (columns_after_response memo _ i D (reachable_step w _ Hw) Hi).
    now rewrite (Hone w k Hk).
  - intros w a b rest Ha Hb.
    rewrite currency_step, currency_rendered.
    destruct (split_first_two a b rest Ha Hb) as [-> ->]. reflexivity.
Qed.

Lemma currency_key_other_shapes_witness :
  JS.includes "GBP" " " = false
  /\ reachable (loaded sample_coins)
  /\ 0 < List.length
           (inflight (fst (step (loaded sample_coins) (CurrencyClick "GBP"))))
  /\ selectedCurrencyKey
       (ui (fst (step (loaded sample_coins) (CurrencyClick "GBP"))))
     = "GBP undefined"
  /\ price_prefix
       (columns_after (currency initialState) (loaded sample_coins)
          (CurrencyClick "GBP")) = "$"
  /\ price_prefix
       (columns_after (currency initialState)
          (fst (step (loaded sample_coins) (CurrencyClick "GBP")))
          (FetchSettled 0 (Resolved sample_coins))) = ""
  /\ currency (ui (fst (step (fst mount) (CurrencyClick "USD $ old"))))
     = Currency.mk (Some "USD") (Some "$").
Proof.
  assert (Hk : JS.includes "GBP" " " = false) by reflexivity.
  assert (Ha : JS.includes "USD" " " = false) by reflexivity.
  assert (Hb : JS.includes "$" " " = false) by reflexivity.
  assert (Hi : 0 < List.length
                     (inflight (fst (step (loaded sample_coins)
                                      (CurrencyClick "GBP")))))
    by (simpl; lia).
  destruct currency_key_other_shapes as (Hone & Hkeep & Hnone & Hmany).
  split; [exact Hk|]. split; [apply reachable_loaded|]. split; [exact Hi|].
  split; [exact (proj2 (Hone (loaded sample_coins) "GBP" Hk))|].
  split.
  - rewrite (Hkeep (currency initialState) (loaded sample_coins) "GBP" Hk).
    reflexivity.
  - split.
    + exact (Hnone (currency initialState) (loaded sample_coins) "GBP" 0
               sample_coins (reachable_loaded sample_coins) Hk Hi).
    + exact (Hmany (fst mount) "USD" "$" "old" Ha Hb).
Defined.

(** ** Rounding: a difference of doubles keeps its sign *)

Section Rounding.

Variable prec emax : Z.
Hypothesis prec_pos : (0 < prec)%Z.

Lemma digits2_bounds (m : positive) :
  (2 ^ (Zpos (digits2_pos m) - 1) <= Zpos m < 2 ^ Zpos (digits2_pos m))%Z.
Proof.
  induction m as [m IH | m IH |]; cbn [digits2_pos].
  - rewrite Pos2Z.inj_succ.
    replace (Z.succ (Zpos (digits2_pos m)) - 1)%Z
      with (Z.succ (Zpos (digits2_pos m) - 1))%Z by lia.
    rewrite !Z.pow_succ_r by lia. lia.
  - rewrite Pos2Z.inj_succ.
    replace (Z.succ (Zpos (digits2_pos m)) - 1)%Z
      with (Z.succ (Zpos (digits2_pos m) - 1))%Z by lia.
    rewrite !Z.pow_succ_r by lia. lia.
  - cbn. lia.
Qed.

Lemma shr_1_m (r : shr_record) :
  (0 <= shr_m r)%Z -> shr_m (shr_1 r) = (shr_m r / 2)%Z.
Proof.
  destruct r as [m b s]. cbn [shr_m]. intro Hm.
  destruct m as [|[p | p |]|p]; cbn [shr_1 shr_m].
  - reflexivity.
  - apply (Z.div_unique _ 2 _ 1); lia.
  - apply (Z.div_unique _ 2 _ 0); lia.
  - reflexivity.
  - lia.
Qed.

Lemma shr_iter_m (n : positive) (r : shr_record) :
  (0 <= shr_m r)%Z ->
  shr_m (iter_pos shr_1 n r) = (shr_m r / 2 ^ Zpos n)%Z.
Proof.
  revert r. induction n as [n IH | n IH |]; intros r Hr; cbn [iter_pos].
  - assert (Hpow : (0 < 2 ^ Zpos n)%Z) by (apply Z.pow_pos_nonneg; lia).
    assert (H1 : (0 <= shr_m (shr_1 r))%Z).
    { rewrite shr_1_m by assumption. apply Z.div_pos; lia. }
    assert (H2 : (0 <= shr_m (iter_pos shr_1 n (shr_1 r)))%Z).
    { rewrite IH by assumption. apply Z.div_pos; assumption. }
    rewrite IH, IH, shr_1_m by assumption.
    rewrite !Z.div_div by lia.
    f_equal.
    replace (Zpos n~1) with (1 + Zpos n + Zpos n)%Z by lia.
    rewrite !Z.pow_add_r by lia. lia.
  - assert (Hpow : (0 < 2 ^ Zpos n)%Z) by (apply Z.pow_pos_nonneg; lia).
    assert (H2 : (0 <= shr_m (iter_pos shr_1 n r))%Z).
    { rewrite IH by assumption. apply Z.div_pos; assumption. }
    rewrite IH, IH by assumption.
    rewrite !Z.div_div by lia.
    f_equal.
    replace (Zpos n~0) with (Zpos n + Zpos n)%Z by lia.
    now rewrite Z.pow_add_r by lia.
  - rewrite shr_1_m by assumption. reflexivity.
Qed.


Lemma shr_record_of_loc_m (m : Z) (l : location) :
  shr_m (shr_record_of_loc m l) = m.
Proof. now destruct l as [|[]]. Qed.

Lemma fexp_ge_emin (e : Z) : (emin prec emax <= fexp prec emax e)%Z.
Proof. unfold fexp. lia. Qed.

(** Shifting a positive mantissa down to its format exponent leaves it
    positive, as long as the exponent is not below the smallest one. *)
Lemma shr_fexp_positive (m : positive) (e : Z) (l : location) :
  (emin prec emax <= e)%Z ->
  (0 < shr_m (fst (shr_fexp prec emax (Zpos m) e l)))%Z
  /\ (emin prec emax <= snd (shr_fexp prec emax (Zpos m) e l))%Z.
Proof.
  intro He. unfold shr_fexp, shr. cbn [Zdigits2].
  pose proof (digits2_bounds m) as [Hlow _].
  destruct (fexp prec emax (Zpos (digits2_pos m) + e) - e)%Z as [|n|n] eqn:Hn;
    cbn [fst snd]; rewrite ?shr_record_of_loc_m; try (split; lia).
  rewrite shr_iter_m by (rewrite shr_record_of_loc_m; lia).
  rewrite shr_record_of_loc_m.
  assert (Hshift : (Zpos n <= Zpos (digits2_pos m) - 1)%Z).
  { unfold fexp in Hn. lia. }
  split; [|lia].
  assert (Hpow : (0 < 2 ^ Zpos n)%Z) by (apply Z.pow_pos_nonneg; lia).
  assert (Hle : (2 ^ Zpos n <= Zpos m)%Z).
  { apply Z.le_trans with (2 ^ (Zpos (digits2_pos m) - 1))%Z; [|assumption].
    apply Z.pow_le_mono_r; lia. }
  apply Z.div_str_pos. lia.
Qed.

Lemma round_nearest_even_ge (m : Z) (l : location) :
  (m <= round_nearest_even m l)%Z.
Proof.
  destruct l as [|[]]; cbn [round_nearest_even]; try lia.
  destruct (Z.even m); lia.
Qed.

(** Rounding a positive mantissa gives a finite number or an infinity of the
    sign asked for, never a zero. *)
Lemma binary_round_aux_sign (s : bool) (m : positive) (e : Z) (l : location) :
  (emin prec emax <= e)%Z ->
  (exists m' e', binary_round_aux prec emax s (Zpos m) e l = S754_finite s m' e')
  \/ binary_round_aux prec emax s (Zpos m) e l = S754_infinity s.
Proof.
  intro He. unfold binary_round_aux.
  destruct (shr_fexp_positive m e l He) as [Hm1 He1].
  destruct (shr_fexp prec emax (Zpos m) e l) as [r1 e1]. cbn [fst snd] in *.
  pose proof (round_nearest_even_ge (shr_m r1) (loc_of_shr_record r1)) as Hge.
  destruct (round_nearest_even (shr_m r1) (loc_of_shr_record r1))
    as [|m2|m2]; try lia.
  destruct (shr_fexp_positive m2 e1 loc_Exact He1) as [Hm2 _].
  destruct (shr_fexp prec emax (Zpos m2) e1 loc_Exact) as [r2 e2].
  cbn [fst snd] in *.
  destruct (shr_m r2) as [|m3|m3]; try lia.
  destruct (e2 <=? emax - prec)%Z; [left; eauto | now right].
Qed.

Lemma binary_round_sign (s : bool) (m : positive) (e : Z) :
  (emin prec emax <= e)%Z ->
  (exists m' e', binary_round prec emax s m e = S754_finite s m' e')
  \/ binary_round prec emax s m e = S754_infinity s.
Proof.
  intro He. unfold binary_round, shl_align.
  pose proof (fexp_ge_emin (Zpos (digits2_pos m) + e)) as Hf.
  destruct (fexp prec emax (Zpos (digits2_pos m) + e) - e)%Z;
    apply binary_round_aux_sign; lia.
Qed.

(** The sign of a rounded integer multiple of a power of two is the sign of
    the integer. *)
Lemma binary_normalize_sign (d e : Z) :
  (emin prec emax <= e)%Z ->
  SFcompare (binary_normalize prec emax d e false) (S754_zero false)
  = Some (d ?= 0)%Z.
Proof.
  intro He. destruct d as [|p|p]; cbn [binary_normalize].
  - reflexivity.
  - destruct (binary_round_sign false p e He) as [(m' & e' & ->) | ->];
      reflexivity.
  - destruct (binary_round_sign true p e He) as [(m' & e' & ->) | ->];
      reflexivity.
Qed.


Lemma iter_xO_value (m d : positive) :
  Zpos (Pos.iter xO m d) = (Zpos m * 2 ^ Zpos d)%Z.
Proof.
  induction d as [|d IH] using Pos.peano_ind.
  - cbn [Pos.iter]. change (2 ^ 1)%Z with 2%Z. lia.
  - rewrite Pos.iter_succ, Pos2Z.inj_succ, Z.pow_succ_r by lia.
    change (Zpos (Pos.iter xO m d)~0) with (2 * Zpos (Pos.iter xO m d))%Z.
    rewrite IH. lia.
Qed.

(** Aligning a mantissa to a smaller exponent multiplies it by the power of
    two in between. *)
Lemma shl_align_value (m : positive) (e e' : Z) :
  (e' <= e)%Z ->
  Zpos (fst (shl_align m e e')) = (Zpos m * 2 ^ (e - e'))%Z.
Proof.
  intro He. unfold shl_align.
  destruct (e' - e)%Z as [|d|d] eqn:Hd; cbn [fst]; try lia.
  - replace (e - e')%Z with 0%Z by lia. lia.
  - rewrite iter_xO_value. f_equal. f_equal. lia.
Qed.

Lemma canonical_exponent (m : positive) (e : Z) :
  canonical_mantissa prec emax m e = true ->
  (emin prec emax <= e)%Z
  /\ (Zpos (digits2_pos m) <= prec)%Z
  /\ ((emin prec emax < e)%Z -> Zpos (digits2_pos m) = prec).
Proof.
  unfold canonical_mantissa, fexp. intro H. apply Z.eqb_eq in H. lia.
Qed.

(** Of two canonical mantissas, the one with the smaller exponent is the
    smaller number. *)
Lemma smaller_exponent_smaller_value (mx my : positive) (ex ey : Z) :
  canonical_mantissa prec emax mx ex = true ->
  canonical_mantissa prec emax my ey = true ->
  (ex < ey)%Z ->
  (Zpos mx < Zpos my * 2 ^ (ey - ex))%Z.
Proof.
  intros Hx Hy Hlt.
  destruct (canonical_exponent mx ex Hx) as (Hex & Hdx & _).
  destruct (canonical_exponent my ey Hy) as (_ & _ & Hdy).
  specialize (Hdy ltac:(lia)).
  pose proof (digits2_bounds mx) as [_ Hmx].
  pose proof (digits2_bounds my) as [Hmy _].
  rewrite Hdy in Hmy.
  assert (H1 : (2 ^ Zpos (digits2_pos mx) <= 2 ^ prec)%Z)
    by (apply Z.pow_le_mono_r; lia).
  assert (H2 : (2 ^ 1 <= 2 ^ (ey - ex))%Z) by (apply Z.pow_le_mono_r; lia).
  assert (H3 : (2 ^ prec = 2 ^ (prec - 1) * 2 ^ 1)%Z).
  { rewrite <- Z.pow_add_r by lia. f_equal. lia. }
  nia.
Qed.

(** The exact difference of two canonical magnitudes compares with zero as
    exponent and mantissa compare, exponent first. *)
Lemma aligned_compare (mx my : positive) (ex ey : Z) :
  canonical_mantissa prec emax mx ex = true ->
  canonical_mantissa prec emax my ey = true ->
  (Zpos (fst (shl_align mx ex (Z.min ex ey)))
   ?= Zpos (fst (shl_align my ey (Z.min ex ey))))%Z
  = match (ex ?= ey)%Z with
    | Lt => Lt
    | Gt => Gt
    | Eq => Pos.compare_cont Eq mx my
    end.
Proof.
  intros Hx Hy.
  rewrite !shl_align_value by lia.
  destruct (Z.compare_spec ex ey) as [Heq | Hlt | Hgt].
  - subst ey. rewrite Z.min_id, Z.sub_diag. cbn [Z.pow].
    rewrite !Z.mul_1_r. reflexivity.
  - rewrite Z.min_l by lia. rewrite Z.sub_diag. cbn [Z.pow].
    rewrite Z.mul_1_r. apply Z.compare_lt_iff.
    now apply smaller_exponent_smaller_value.
  - rewrite Z.min_r by lia. rewrite Z.sub_diag. cbn [Z.pow].
    rewrite Z.mul_1_r. apply Z.compare_gt_iff.
    now apply smaller_exponent_smaller_value.
Qed.

Lemma diff_compare (X Y : Z) (c : comparison) :
  (X ?= Y)%Z = c ->
  (X - Y ?= 0)%Z = c /\ (- X - - Y ?= 0)%Z = CompOpp c.
Proof.
  intros <-.
  destruct (Z.compare_spec X Y); cbn [CompOpp]; split;
    first [apply Z.compare_eq_iff | apply Z.compare_lt_iff
          | apply Z.compare_gt_iff]; lia.
Qed.

(** Subtracting two valid numbers, the result compares with zero as the
    first number compares with the second; the one exception is an infinity
    minus itself, which is NaN. *)
Lemma SFsub_compare (x y : spec_float) :
  valid_binary prec emax x = true ->
  valid_binary prec emax y = true ->
  (forall s, x = S754_infinity s -> y <> S754_infinity s) ->
  SFcompare (SFsub prec emax x y) (S754_zero false) = SFcompare x y.
Proof.
  intros Hx Hy Hinf.
  destruct x as [sx | sx | | sx mx ex], y as [sy | sy | | sy my ey];
    try reflexivity;
    try (destruct sx; reflexivity);
    try (destruct sy; reflexivity);
    try (destruct sx, sy; reflexivity).
  - destruct sx, sy; try reflexivity; now elim (Hinf _ eq_refl).
  - cbn [valid_binary] in Hx, Hy. unfold bounded in Hx, Hy.
    apply andb_true_iff in Hx, Hy. destruct Hx as [Hx _], Hy as [Hy _].
    destruct (canonical_exponent mx ex Hx) as (Hex & _ & _).
    destruct (canonical_exponent my ey Hy) as (Hey & _ & _).
    cbn [SFsub]. rewrite binary_normalize_sign by lia.
    pose proof (aligned_compare mx my ex ey Hx Hy) as Hcmp.
    set (X := Zpos (fst (shl_align mx ex (Z.min ex ey)))) in *.
    set (Y := Zpos (fst (shl_align my ey (Z.min ex ey)))) in *.
    assert (HX : (0 < X)%Z) by (subst X; lia).
    assert (HY : (0 < Y)%Z) by (subst Y; lia).
    cbn [SFcompare]. f_equal.
    destruct (diff_compare X Y _ Hcmp) as [Hpos Hneg].
    destruct sx, sy; cbn [cond_Zopp].
    + rewrite Hneg. now destruct (ex ?= ey)%Z.
    + apply Z.compare_lt_iff. lia.
    + apply Z.compare_gt_iff. lia.
    + exact Hpos.
Qed.

End Rounding.

(** ** The sorter of the price column *)

Lemma prec_positive : (0 < JS.prec)%Z.
Proof. reflexivity. Qed.

(** X17: The [sorter] orders by price.  For prices that are valid doubles, its
    result is below, equal to or above zero exactly as the first price is
    below, equal to or above the second, and swapping the records swaps the
    answer.  It fails to order in two cases only, where it is NaN: a NaN
    price, and two prices that are the same infinity. *)
Theorem sorter_orders_by_price :
  (forall a b : CoinType,
      valid_binary JS.prec JS.emax (current_price a) = true ->
      valid_binary JS.prec JS.emax (current_price b) = true ->
      (forall s, current_price a = S754_infinity s ->
                 current_price b <> S754_infinity s) ->
      SFcompare (sorter a b) (JS.of_Z 0)
      = SFcompare (current_price a) (current_price b)
      /\ JS.lessThan (sorter a b) (JS.of_Z 0)
         = JS.lessThan (current_price a) (current_price b)
      /\ JS.gt (sorter a b) (JS.of_Z 0)
         = JS.gt (current_price a) (current_price b)
      /\ SFcompare (sorter b a) (JS.of_Z 0)
         = option_map CompOpp (SFcompare (sorter a b) (JS.of_Z 0)))
  /\ (forall (a b : CoinType) (s : bool),
        current_price a = S754_infinity s ->
        current_price b = S754_infinity s ->
        sorter a b = JS.NaN)
  /\ (forall a b : CoinType,
        is_nan (current_price a) = true \/ is_nan (current_price b) = true ->
        sorter a b = JS.NaN).
Proof.
  split; [|split].
  - intros a b Ha Hb Hinf.
    assert (Hab : SFcompare (sorter a b) (JS.of_Z 0)
                  = SFcompare (current_price a) (current_price b)).
    { apply (SFsub_compare JS.prec JS.emax prec_positive); assumption. }
    assert (Hba : SFcompare (sorter b a) (JS.of_Z 0)
                  = SFcompare (current_price b) (current_price a)).
    { apply (SFsub_compare JS.prec JS.emax prec_positive); try assumption.
      intros s Hs Hs'. exact (Hinf s Hs' Hs). }
    split; [exact Hab|]. split; [|split].
    + unfold JS.lessThan. now rewrite Hab.
    + unfold JS.gt, JS.lessThan.
      rewrite (SFcompare_antisym (sorter a b) (JS.of_Z 0)), Hab.
      now rewrite <- (SFcompare_antisym (current_price a) (current_price b)).
    + rewrite Hba, Hab. apply SFcompare_antisym.
  - intros a b s Ha Hb. unfold sorter. rewrite Ha, Hb. now destruct s.
  - intros a b [H | H]; unfold sorter.
    + destruct (current_price a); try discriminate. reflexivity.
    + destruct (current_price b); try discriminate.
      now destruct (current_price a).
Qed.

Lemma sorter_orders_by_price_witness :
  valid_binary JS.prec JS.emax (current_price (coin_priced n350_5)) = true
  /\ valid_binary JS.prec JS.emax (current_price (coin_priced n299_5)) = true
  /\ JS.gt (sorter (coin_priced n350_5) (coin_priced n299_5)) (JS.of_Z 0)
     = true
  /\ JS.lessThan (sorter (coin_priced n299_5) (coin_priced n350_5))
       (JS.of_Z 0) = Some true.
Proof.
  assert (Ha : valid_binary JS.prec JS.emax
                 (current_price (coin_priced n350_5)) = true) by reflexivity.
  assert (Hb : valid_binary JS.prec JS.emax
                 (current_price (coin_priced n299_5)) = true) by reflexivity.
  assert (Hinf : forall s, current_price (coin_priced n350_5) = S754_infinity s
                           -> current_price (coin_priced n299_5)
                              <> S754_infinity s)
    by (intros s H; discriminate H).
  assert (Hinf' : forall s, current_price (coin_priced n299_5) = S754_infinity s
                            -> current_price (coin_priced n350_5)
                               <> S754_infinity s)
    by (intros s H; discriminate H).
  destruct sorter_orders_by_price as [Hord _].
  destruct (Hord _ _ Ha Hb Hinf) as (_ & _ & Hgt & _).
  destruct (Hord _ _ Hb Ha Hinf') as (_ & Hlt & _).
  split; [exact Ha|]. split; [exact Hb|]. split.
  - rewrite Hgt. reflexivity.
  - rewrite Hlt. reflexivity.
Defined.
